(** * Polyfetch: market normalization and statistics derivation

    A shallow embedding of the Go sources [models.go], [gamma.go],
    [subgraph.go] and [main.go] of Polyfetch, and the properties of the
    normalizer, the ledger pagination and the statistics engine.

    Conventions.
    - Go [int] values are [Z]; every [int] that occurs stays far inside the
      64-bit range, and no arithmetic on them can wrap.
    - Go [float64] is Rocq's primitive binary64 [float]; the general facts
      about rounding are derived from its specification [SpecFloat].
    - Go [string] is [string]; [map[string]...] is [gmap string ...]; a
      [map[string]bool] that is only ever assigned [true] is a [gset string].
    - Library functions whose code is not part of the repository
      ([json.Unmarshal], [time.Parse], [Time.AddDate], [strconv.Atoi],
      [fmt.Sscanf], the GraphQL transport) are interfaces, given as classes,
      so every theorem holds whatever they return; an HTTP exchange is an
      input. *)

From Stdlib Require Import ZArith Lia Bool Ascii String Floats.
From stdpp Require Import gmap strings list pretty.

Local Open Scope string_scope.
Local Open Scope list_scope.
Local Open Scope Z_scope.

(** ** The time package, as far as the sources use it *)

Module time.

(** An instant, counted in nanoseconds from January 1, year 1, 00:00:00
    UTC, which is the zero value of [time.Time]. *)
Definition Time := Z.

Definition zero : Time := 0.

Definition IsZero (t : Time) : bool := t =? 0.

Definition Before (t u : Time) : bool := t <? u.

Definition Hour : Z := 3600 * 1000000000.

(** [t.AddDate(0, 0, days)]: the instant with the clock reading of [t],
    [days] calendar days later, in the zone of [t]. It depends on the rules
    of the zone, which are not part of the sources. *)
Class Calendar := AddDate_days : Time -> Z -> Time.

(** The calendar of a zone whose offset never changes, as UTC: a day is 24
    hours. *)
Definition UTC : Calendar := fun t days => t + days * (24 * Hour).

(** The layouts [convertGammaMarket] tries. *)
Definition RFC3339 : string := "2006-01-02T15:04:05Z07:00".

End time.

(** ** models.go *)

Record Market := {
  Market_ID : string;
  Market_ConditionID : string;
  Market_Question : string;
  Market_Description : string;
  Market_Outcomes : list string;
  Market_OutcomeTokens : list string;
  Market_EndDate : time.Time;
  Market_Volume : string;
  Market_Liquidity : string;
  Market_Active : bool
}.

Record GammaMarket := {
  GammaMarket_ID : string;
  GammaMarket_ConditionID : string;
  GammaMarket_Question : string;
  GammaMarket_Description : string;
  GammaMarket_Outcomes : string;
  GammaMarket_OutcomePrices : string;
  GammaMarket_EndDateISO : string;
  GammaMarket_Volume : string;
  GammaMarket_Liquidity : string;
  GammaMarket_Active : bool;
  GammaMarket_Closed : bool
}.

Record GammaEvent := {
  GammaEvent_ID : string;
  GammaEvent_Title : string;
  GammaEvent_Slug : string;
  GammaEvent_Active : bool;
  GammaEvent_Closed : bool;
  GammaEvent_Markets : list GammaMarket
}.

Record SearchResponse := {
  SearchResponse_Events : list GammaEvent
}.

Record PositionData := {
  PositionData_ID : string;
  PositionData_User_ID : string;
  PositionData_Outcome : string;
  PositionData_Market_ID : string;
  PositionData_QuantityBought : string;
  PositionData_QuantitySold : string
}.

Record OutcomeStats := {
  OutcomeStats_Outcome : string;
  OutcomeStats_OutcomeIndex : Z;
  OutcomeStats_UserCount : Z;
  OutcomeStats_Percentage : float;
  OutcomeStats_Price : string
}.

Record MarketStats := {
  MarketStats_MarketID : string;
  MarketStats_Question : string;
  MarketStats_TotalUsers : Z;
  MarketStats_OutcomeStats : list OutcomeStats;
  MarketStats_PopularOutcome : string;
  MarketStats_PopularPct : float
}.

(** ** The packages the sources call *)

(** [json.Unmarshal] at the types it is called with; [None] is an error. *)
Class Json := {
  Unmarshal_strings : string -> option (list string);
  Unmarshal_GammaMarkets : string -> option (list GammaMarket);
  Unmarshal_GammaMarket : string -> option GammaMarket;
  Unmarshal_SearchResponse : string -> option SearchResponse
}.

(** [time.Parse layout value]; [None] is an error. *)
Class TimeParser := time_Parse : string -> string -> option time.Time.

(** [strconv.Atoi]; [None] is an error. *)
Class Strconv := Atoi : string -> option Z.

(** [fmt.Sscanf(s, "%f", &x)]: [Some v] when a float was scanned and stored
    in [x], [None] when the scan failed and [x] was left as it was. *)
Class Fmt := Sscanf_f : string -> option float.

(** [fmt.Sprint] of an [int]. *)
Definition Sprint (i : Z) : string := pretty i.

(** [float64(n)] for an [int] [n] that is not negative. *)
Definition float64 (n : Z) : float := of_uint63 (Uint63.of_Z n).

(** ** gamma.go *)

(** What [c.httpClient.Get] followed by [io.ReadAll] can give. *)
Inductive HttpExchange :=
  | GetFailed
  | GetReplied (status : Z) (body : option string).

Inductive FetchError :=
  | ErrFetch
  | ErrAPI (status : Z)
  | ErrRead
  | ErrParse.

(** The three ways a Go call ends. *)
Inductive outcome (A : Type) :=
  | Returned (a : A)
  | Failed (e : FetchError)
  | Panicked.
Arguments Returned {A} a.
Arguments Failed {A} e.
Arguments Panicked {A}.

Definition StatusOK : Z := 200.

Definition formats : list string :=
  [time.RFC3339; "2006-01-02"; "2006-01-02T15:04:05"].

(** The loop over [formats]: the first layout that parses sets the end date
    and leaves the loop. *)
Fixpoint parseEndDate `{TimeParser} (layouts : list string) (value : string)
    (EndDate : time.Time) : time.Time :=
  match layouts with
  | [] => EndDate
  | format :: rest =>
      match time_Parse format value with
      | Some t => t
      | None => parseEndDate rest value EndDate
      end
  end.

Definition convertGammaMarket `{Json, TimeParser} (gm : GammaMarket) : Market :=
  let Outcomes :=
    if decide (GammaMarket_Outcomes gm = "") then []
    else match Unmarshal_strings (GammaMarket_Outcomes gm) with
         | Some outcomes => outcomes
         | None => []
         end in
  let OutcomeTokens :=
    if decide (GammaMarket_OutcomePrices gm = "") then []
    else match Unmarshal_strings (GammaMarket_OutcomePrices gm) with
         | Some prices => prices
         | None => []
         end in
  let EndDate :=
    if decide (GammaMarket_EndDateISO gm = "") then time.zero
    else parseEndDate formats (GammaMarket_EndDateISO gm) time.zero in
  {| Market_ID := GammaMarket_ID gm;
     Market_ConditionID := GammaMarket_ConditionID gm;
     Market_Question := GammaMarket_Question gm;
     Market_Description := GammaMarket_Description gm;
     Market_Outcomes := Outcomes;
     Market_OutcomeTokens := OutcomeTokens;
     Market_EndDate := EndDate;
     Market_Volume := GammaMarket_Volume gm;
     Market_Liquidity := GammaMarket_Liquidity gm;
     Market_Active := GammaMarket_Active gm && negb (GammaMarket_Closed gm) |}.

(** The test both list paths apply to a converted market:
    [!market.EndDate.IsZero() && market.EndDate.Before(now.AddDate(0, 0, -1))]. *)
Definition expired `{time.Calendar} (now : time.Time) (market : Market) : bool :=
  negb (time.IsZero (Market_EndDate market))
  && time.Before (Market_EndDate market) (time.AddDate_days now (-1)).

(** The part the three fetches share: transport error, status check, body. *)
Definition withBody {A : Type} (reply : HttpExchange) (k : string -> outcome A)
  : outcome A :=
  match reply with
  | GetFailed => Failed ErrFetch
  | GetReplied status body =>
      if decide (status = StatusOK) then
        match body with
        | Some b => k b
        | None => Failed ErrRead
        end
      else Failed (ErrAPI status)
  end.

(** The conversion loop of [FetchMarkets]. *)
Fixpoint fetchLoop `{Json, TimeParser, time.Calendar} (now : time.Time)
    (gammaMarkets : list GammaMarket) (markets : list Market) : list Market :=
  match gammaMarkets with
  | [] => markets
  | gm :: rest =>
      let market := convertGammaMarket gm in
      if expired now market then fetchLoop now rest markets
      else fetchLoop now rest (markets ++ [market])
  end.

Definition FetchMarkets `{Json, TimeParser, time.Calendar} (reply : HttpExchange)
    (now : time.Time) (limit offset : Z) : outcome (list Market) :=
  withBody reply (fun body =>
    match Unmarshal_GammaMarkets body with
    | None => Failed ErrParse
    | Some gammaMarkets => Returned (fetchLoop now gammaMarkets [])
    end).

Definition FetchMarketByID `{Json, TimeParser} (reply : HttpExchange)
    (marketID : string) : outcome Market :=
  withBody reply (fun body =>
    match Unmarshal_GammaMarket body with
    | None => Failed ErrParse
    | Some gm => Returned (convertGammaMarket gm)
    end).

(** The inner loop of [SearchMarkets], over the markets of one event. *)
Fixpoint searchEvent `{Json, TimeParser, time.Calendar} (now : time.Time)
    (gms : list GammaMarket) (markets : list Market) : list Market :=
  match gms with
  | [] => markets
  | gm :: rest =>
      if GammaMarket_Active gm && negb (GammaMarket_Closed gm) then
        let market := convertGammaMarket gm in
        if expired now market then searchEvent now rest markets
        else searchEvent now rest (markets ++ [market])
      else searchEvent now rest markets
  end.

(** The outer loop of [SearchMarkets]; [markets[:limit]] panics when [limit]
    is negative. *)
Fixpoint searchLoop `{Json, TimeParser, time.Calendar} (now : time.Time) (limit : Z)
    (events : list GammaEvent) (markets : list Market) : outcome (list Market) :=
  match events with
  | [] => Returned markets
  | event :: rest =>
      let markets := searchEvent now (GammaEvent_Markets event) markets in
      if limit <=? Z.of_nat (length markets) then
        if limit <? 0 then Panicked
        else Returned (take (Z.to_nat limit) markets)
      else searchLoop now limit rest markets
  end.

Definition SearchMarkets `{Json, TimeParser, time.Calendar} (reply : HttpExchange)
    (now : time.Time) (query : string) (limit : Z) : outcome (list Market) :=
  withBody reply (fun body =>
    match Unmarshal_SearchResponse body with
    | None => Failed ErrParse
    | Some searchResp =>
        searchLoop now limit (SearchResponse_Events searchResp) []
    end).

(** ** subgraph.go *)

(** The variables of one positions query. *)
Record Request := {
  Request_marketId : string;
  Request_first : Z;
  Request_skip : Z
}.

(** What [c.Query] followed by [json.Unmarshal] of the payload can give. *)
Inductive PageReply :=
  | QueryFailed
  | PayloadUnparsed
  | Positions (positions : list PositionData).

Inductive LedgerError :=
  | ErrQueryPositions (skip : Z)
  | ErrParsePositions.

(** The subgraph endpoint: a state that answers one request and moves on. *)
Class Subgraph (Upstream : Type) :=
  Query : Upstream -> Request -> Upstream * PageReply.

(** One run of [GetMarketPositions]: the state the endpoint is left in, the
    requests issued with their replies, oldest first, and what is returned. *)
Record Run (Upstream : Type) := {
  Run_upstream : Upstream;
  Run_log : list (Request * PageReply);
  Run_result : LedgerError + list PositionData
}.
Arguments Run_upstream {Upstream} r.
Arguments Run_log {Upstream} r.
Arguments Run_result {Upstream} r.

(** The [for] loop of [GetMarketPositions]; [None] when [fuel] iterations
    were not enough to leave it. *)
Fixpoint positionsLoop `{Subgraph Upstream} (fuel : nat) (up : Upstream)
    (marketID : string) (limit skip : Z) (allPositions : list PositionData)
    (log : list (Request * PageReply)) : option (Run Upstream) :=
  match fuel with
  | O => None
  | S fuel =>
      let variables :=
        {| Request_marketId := marketID;
           Request_first := limit;
           Request_skip := skip |} in
      let '(up, reply) := Query up variables in
      let log := log ++ [(variables, reply)] in
      match reply with
      | QueryFailed =>
          Some {| Run_upstream := up; Run_log := log;
                  Run_result := inl (ErrQueryPositions skip) |}
      | PayloadUnparsed =>
          Some {| Run_upstream := up; Run_log := log;
                  Run_result := inl ErrParsePositions |}
      | Positions positions =>
          let allPositions := allPositions ++ positions in
          if Z.of_nat (length positions) <? limit then
            Some {| Run_upstream := up; Run_log := log;
                    Run_result := inr allPositions |}
          else
            let skip := skip + limit in
            if 10000 <? skip then
              Some {| Run_upstream := up; Run_log := log;
                      Run_result := inr allPositions |}
            else positionsLoop fuel up marketID limit skip allPositions log
      end
  end.

(** Eleven iterations always leave the loop ([positionsLoop_fuel] below). *)
Definition GetMarketPositions `{Subgraph Upstream} (up : Upstream)
    (marketID : string) : option (Run Upstream) :=
  positionsLoop 11 up marketID 1000 0 [] [].

(** The body of the loop over [positions]: [outcomeUsers] maps an outcome to
    its set of users, [totalUniqueUsers] is the set of all users. *)
Definition addPosition (acc : gmap string (gset string) * gset string)
    (pos : PositionData) : gmap string (gset string) * gset string :=
  let '(outcomeUsers, totalUniqueUsers) := acc in
  let outcome := PositionData_Outcome pos in
  let user := PositionData_User_ID pos in
  let outcomeUsers :=
    match outcomeUsers !! outcome with
    | Some _ => outcomeUsers
    | None => <[outcome := ∅]> outcomeUsers
    end in
  (alter (fun users => {[user]} ∪ users) outcome outcomeUsers,
   {[user]} ∪ totalUniqueUsers).

Definition groupPositions (positions : list PositionData)
  : gmap string (gset string) * gset string :=
  fold_left addPosition positions (∅, ∅).

(** What the two loops over [market.Outcomes] carry from one iteration to the
    next: the stats appended so far, the running maximum and its outcome. *)
Record Tally := {
  Tally_stats : list OutcomeStats;
  Tally_max : float;
  Tally_popular : string
}.

Definition Tally_start : Tally :=
  {| Tally_stats := []; Tally_max := 0%float; Tally_popular := "" |}.

(** The loop of [ComputeMarketStats] over [market.Outcomes], from index [i]. *)
Fixpoint ledgerLoop (outcomeUsers : gmap string (gset string)) (totalUsers : Z)
    (OutcomeTokens : list string) (i : nat) (Outcomes : list string)
    (acc : Tally) : Tally :=
  match Outcomes with
  | [] => acc
  | outcomeName :: rest =>
      let outcomeKey := Sprint (Z.of_nat i) in
      let userCount :=
        match outcomeUsers !! outcomeKey with
        | Some users => Z.of_nat (size users)
        | None => 0
        end in
      let pct :=
        if 0 <? totalUsers
        then (float64 userCount / float64 totalUsers * 100)%float
        else 0%float in
      let price :=
        match OutcomeTokens !! i with
        | Some p => p
        | None => ""
        end in
      let stats :=
        Tally_stats acc ++
        [{| OutcomeStats_Outcome := outcomeName;
            OutcomeStats_OutcomeIndex := Z.of_nat i;
            OutcomeStats_UserCount := userCount;
            OutcomeStats_Percentage := pct;
            OutcomeStats_Price := price |}] in
      ledgerLoop outcomeUsers totalUsers OutcomeTokens (S i) rest
        (if (Tally_max acc <? pct)%float
         then {| Tally_stats := stats; Tally_max := pct;
                 Tally_popular := outcomeName |}
         else {| Tally_stats := stats; Tally_max := Tally_max acc;
                 Tally_popular := Tally_popular acc |})
  end.

(** The loop of [computeStatsFromPrices] over [market.Outcomes]. *)
Fixpoint pricesLoop `{Fmt} (OutcomeTokens : list string) (i : nat)
    (Outcomes : list string) (acc : Tally) : Tally :=
  match Outcomes with
  | [] => acc
  | outcomeName :: rest =>
      let price :=
        match OutcomeTokens !! i with
        | Some p => p
        | None => "0"
        end in
      let priceFloat :=
        match Sscanf_f price with
        | Some v => v
        | None => 0%float
        end in
      let pct := (priceFloat * 100)%float in
      let stats :=
        Tally_stats acc ++
        [{| OutcomeStats_Outcome := outcomeName;
            OutcomeStats_OutcomeIndex := Z.of_nat i;
            OutcomeStats_UserCount := 0;
            OutcomeStats_Percentage := pct;
            OutcomeStats_Price := price |}] in
      pricesLoop OutcomeTokens (S i) rest
        (if (Tally_max acc <? priceFloat)%float
         then {| Tally_stats := stats; Tally_max := priceFloat;
                 Tally_popular := outcomeName |}
         else {| Tally_stats := stats; Tally_max := Tally_max acc;
                 Tally_popular := Tally_popular acc |})
  end.

Definition computeStatsFromPrices `{Fmt} (market : Market) : MarketStats :=
  let t :=
    pricesLoop (Market_OutcomeTokens market) 0 (Market_Outcomes market)
      Tally_start in
  {| MarketStats_MarketID := Market_ID market;
     MarketStats_Question := Market_Question market;
     MarketStats_TotalUsers := 0;
     MarketStats_OutcomeStats := Tally_stats t;
     MarketStats_PopularOutcome := Tally_popular t;
     MarketStats_PopularPct := (Tally_max t * 100)%float |}.

(** The part of [ComputeMarketStats] after the positions are grouped and
    [totalUsers] is known not to be zero. *)
Definition ledgerStats (market : Market)
    (outcomeUsers : gmap string (gset string)) (totalUsers : Z) : MarketStats :=
  let t :=
    ledgerLoop outcomeUsers totalUsers (Market_OutcomeTokens market) 0
      (Market_Outcomes market) Tally_start in
  {| MarketStats_MarketID := Market_ID market;
     MarketStats_Question := Market_Question market;
     MarketStats_TotalUsers := totalUsers;
     MarketStats_OutcomeStats := Tally_stats t;
     MarketStats_PopularOutcome := Tally_popular t;
     MarketStats_PopularPct := Tally_max t |}.

(** The stats and the [error] returned beside them ([None] is [nil]). *)
Definition statsOf `{Fmt} (market : Market)
    (fetched : LedgerError + list PositionData)
  : MarketStats * option LedgerError :=
  match fetched with
  | inl _ => (computeStatsFromPrices market, None)
  | inr positions =>
      let '(outcomeUsers, totalUniqueUsers) := groupPositions positions in
      let totalUsers := Z.of_nat (size totalUniqueUsers) in
      if totalUsers =? 0 then (computeStatsFromPrices market, None)
      else (ledgerStats market outcomeUsers totalUsers, None)
  end.

Definition ComputeMarketStats `{Subgraph Upstream, Fmt} (up : Upstream)
    (market : Market) : option (MarketStats * option LedgerError) :=
  match GetMarketPositions up (Market_ConditionID market) with
  | None => None
  | Some run => Some (statsOf market (Run_result run))
  end.

(** *** The transport of a query

    [SubgraphClient.Query] sends one GraphQL request over HTTP. The JSON
    encoding and the HTTP client are interfaces. *)

Module SubgraphClient.

(** [GraphQLResponse]: the raw [data], and the messages of [errors]. *)
Record GraphQLResponse := {
  GraphQLResponse_Data : string;
  GraphQLResponse_Errors : list string
}.

(** What [c.httpClient.Post] followed by [io.ReadAll] can give. *)
Inductive PostExchange :=
  | PostFailed
  | PostReplied (status : Z) (body : option string).

Inductive QueryError :=
  | ErrMarshalQuery
  | ErrExecuteQuery
  | ErrReadResponse
  | ErrParseResponse
  | ErrGraphQL (message : string).

(** [json.Marshal] of the request with its variables, [json.Unmarshal] into
    a [GraphQLResponse], and [json.Unmarshal] of the data into the struct
    with the [positions] field; [None] is an error. *)
Class GraphQLJson := {
  Marshal_GraphQLRequest : Request -> option string;
  Unmarshal_GraphQLResponse : string -> option GraphQLResponse;
  Unmarshal_Positions : string -> option (list PositionData)
}.

(** The HTTP endpoint: a state that answers one POST and moves on. *)
Class Transport (Upstream : Type) :=
  Post : Upstream -> string -> Upstream * PostExchange.

Definition Query `{Transport Upstream, GraphQLJson} (up : Upstream)
    (variables : Request) : Upstream * (QueryError + string) :=
  match Marshal_GraphQLRequest variables with
  | None => (up, inl ErrMarshalQuery)
  | Some jsonBody =>
      let '(up, exchange) := Post up jsonBody in
      (up,
       match exchange with
       | PostFailed => inl ErrExecuteQuery
       | PostReplied _ None => inl ErrReadResponse
       | PostReplied _ (Some body) =>
           match Unmarshal_GraphQLResponse body with
           | None => inl ErrParseResponse
           | Some gqlResp =>
               match GraphQLResponse_Errors gqlResp with
               | message :: _ => inl (ErrGraphQL message)
               | [] => inr (GraphQLResponse_Data gqlResp)
               end
           end
       end)
  end.

(** The first two steps of the loop body of [GetMarketPositions]: the call
    of [c.Query] and the decoding of its data. *)
Definition page `{Transport Upstream, GraphQLJson} : Subgraph Upstream :=
  fun up variables =>
    let '(up, result) := Query up variables in
    (up,
     match result with
     | inl _ => QueryFailed
     | inr data =>
         match Unmarshal_Positions data with
         | None => PayloadUnparsed
         | Some positions => Positions positions
         end
     end).

End SubgraphClient.

(** ** main.go *)

(** [url.Values] and its [Get]: the first value of the key, or [""]. *)
Definition Values := gmap string (list string).

Definition Get (v : Values) (key : string) : string :=
  match v !! key with
  | Some (value :: _) => value
  | _ => ""
  end.

(** The query parameters of [handleGetMarkets]: the [limit] and [offset] it
    calls [FetchMarkets] with. *)
Definition listParams `{Strconv} (query : Values) : Z * Z :=
  let limit := 50 in
  let offset := 0 in
  let limit :=
    let l := Get query "limit" in
    if decide (l = "") then limit
    else match Atoi l with
         | Some parsed =>
             if (0 <? parsed) && (parsed <=? 100) then parsed else limit
         | None => limit
         end in
  let offset :=
    let o := Get query "offset" in
    if decide (o = "") then offset
    else match Atoi o with
         | Some parsed => if 0 <=? parsed then parsed else offset
         | None => offset
         end in
  (limit, offset).

Definition handleGetMarkets `{Strconv, Json, TimeParser, time.Calendar} (query : Values)
    (reply : HttpExchange) (now : time.Time) : outcome (list Market) :=
  let '(limit, offset) := listParams query in
  FetchMarkets reply now limit offset.

(** The query parameter of [handleSearchMarkets]. *)
Definition searchLimit `{Strconv} (query : Values) : Z :=
  let limit := 20 in
  let l := Get query "limit" in
  if decide (l = "") then limit
  else match Atoi l with
       | Some parsed =>
           if (0 <? parsed) && (parsed <=? 50) then parsed else limit
       | None => limit
       end.

(** [APIResponse]. [Data] is what a handler puts in the [Data] field;
    [ErrorText] is what it puts in the [Error] field: nothing, the fixed text
    of the search handler, or [err.Error()] of the error a client returned. *)
Inductive Data :=
  | NoData
  | Health (status : string)
  | Markets (markets : list Market)
  | OneMarket (market : Market)
  | Stats (stats : MarketStats).

Inductive ErrorText :=
  | NoError
  | QueryRequired
  | FetchErrorText (e : FetchError)
  | LedgerErrorText (e : LedgerError).

Record APIResponse := {
  APIResponse_Success : bool;
  APIResponse_Data : Data;
  APIResponse_Error : ErrorText
}.

(** [json.NewEncoder(w).Encode(v)] for an [APIResponse] [v]: whether [v]
    encodes. When it does not (a float that is not finite, a time that is
    out of range), [Encode] writes nothing and returns an error, which the
    handlers do not look at. *)
Class Encoder := Encodes : APIResponse -> bool.

(** What a handler leaves in its [http.ResponseWriter]: the content type it
    set, the status (the one it wrote, and 200 when it wrote none) and the
    body: the envelope that was encoded, or nothing when it did not
    encode. *)
Record Response := {
  Response_ContentType : string;
  Response_StatusCode : Z;
  Response_Body : option APIResponse
}.

Definition StatusBadRequest : Z := 400.

Definition StatusInternalServerError : Z := 500.

(** The handlers; [None] when the handler panics or does not return. *)
Module Server.

Definition success (data : Data) : APIResponse :=
  {| APIResponse_Success := true; APIResponse_Data := data;
     APIResponse_Error := NoError |}.

Definition failure (error : ErrorText) : APIResponse :=
  {| APIResponse_Success := false; APIResponse_Data := NoData;
     APIResponse_Error := error |}.

(** What every handler does around its work: it sets the content type
    first, and it ends with [json.NewEncoder(w).Encode(body)], whose error
    it ignores, after [w.WriteHeader(status)] on the failure paths and
    without it, so with status 200, on the success paths. *)
Definition respond `{Encoder} (status : Z) (body : APIResponse) : Response :=
  {| Response_ContentType := "application/json";
     Response_StatusCode := status;
     Response_Body := if Encodes body then Some body else None |}.

Definition succeed `{Encoder} (data : Data) : Response :=
  respond StatusOK (success data).

Definition fail `{Encoder} (status : Z) (error : ErrorText) : Response :=
  respond status (failure error).


Definition handleGetMarkets `{Encoder, Strconv, Json, TimeParser, time.Calendar}
    (query : Values) (reply : HttpExchange) (now : time.Time) : option Response :=
  let '(limit, offset) := listParams query in
  match FetchMarkets reply now limit offset with
  | Failed e => Some (fail StatusInternalServerError (FetchErrorText e))
  | Returned markets => Some (succeed (Markets markets))
  | Panicked => None
  end.

Definition handleSearchMarkets `{Encoder, Strconv, Json, TimeParser, time.Calendar}
    (values : Values) (reply : HttpExchange) (now : time.Time) : option Response :=
  let query := Get values "q" in
  if decide (query = "") then Some (fail StatusBadRequest QueryRequired)
  else
    let limit := searchLimit values in
    match SearchMarkets reply now query limit with
    | Failed e => Some (fail StatusInternalServerError (FetchErrorText e))
    | Returned markets => Some (succeed (Markets markets))
    | Panicked => None
    end.


Definition handleGetMarketStats `{Encoder, Json, TimeParser, Subgraph Upstream, Fmt}
    (reply : HttpExchange) (up : Upstream) (marketID : string) : option Response :=
  match FetchMarketByID reply marketID with
  | Failed e => Some (fail StatusInternalServerError (FetchErrorText e))
  | Returned market =>
      match ComputeMarketStats up market with
      | Some (_, Some e) => Some (fail StatusInternalServerError (LedgerErrorText e))
      | Some (stats, None) => Some (succeed (Stats stats))
      | None => None
      end
  | Panicked => None
  end.

End Server.

(** ** Vocabulary of the statements *)

(** The records a search normalizes: those flagged active and not closed. *)
Definition normalized `{Json, TimeParser} (gms : list GammaMarket) : list Market :=
  map convertGammaMarket
    (List.filter (fun gm => GammaMarket_Active gm && negb (GammaMarket_Closed gm)) gms).

Definition kept `{time.Calendar} (now : time.Time) (ms : list Market) : list Market :=
  List.filter (fun m => negb (expired now m)) ms.

Definition marketsOf (events : list GammaEvent) : list GammaMarket :=
  concat (map GammaEvent_Markets events).

(** The replies an endpoint gives to requests made one after the other. *)
Fixpoint replay `{Subgraph Upstream} (up : Upstream) (requests : list Request)
  : Upstream * list PageReply :=
  match requests with
  | [] => (up, [])
  | request :: rest =>
      let '(up, reply) := Query up request in
      let '(up, replies) := replay up rest in
      (up, reply :: replies)
  end.

Definition pageOf (reply : PageReply) : list PositionData :=
  match reply with
  | Positions positions => positions
  | _ => []
  end.

Definition fullPage (reply : PageReply) : Prop :=
  exists positions,
    reply = Positions positions /\ 1000 <= Z.of_nat (length positions).

(** [n] requests for pages of 1000, the first at offset [skip], each next
    one 1000 further. *)
Fixpoint requestsFrom (marketID : string) (skip : Z) (n : nat) : list Request :=
  match n with
  | O => []
  | S n =>
      {| Request_marketId := marketID; Request_first := 1000;
         Request_skip := skip |} :: requestsFrom marketID (skip + 1000) n
  end.

(** How a run ends, read off the last reply. *)
Definition endsWith (skip : Z) (allPages : list PositionData) (n : nat)
    (lastReply : option PageReply) (result : LedgerError + list PositionData) : Prop :=
  match lastReply with
  | Some QueryFailed =>
      result = inl (ErrQueryPositions (skip + 1000 * (Z.of_nat n - 1)))
  | Some PayloadUnparsed => result = inl ErrParsePositions
  | Some (Positions positions) =>
      result = inr allPages
      /\ (Z.of_nat (length positions) < 1000 \/ 10000 < skip + 1000 * Z.of_nat n)
  | None => False
  end.

(** The users of a list of positions, and of those on one outcome. *)
Definition usersOf (positions : list PositionData) : gset string :=
  list_to_set (PositionData_User_ID <$> positions).

Definition positionsOn (outcome : string) (positions : list PositionData)
  : list PositionData :=
  filter (fun pos => PositionData_Outcome pos = outcome) positions.

Definition usersOn (outcome : string) (positions : list PositionData) : gset string :=
  usersOf (positionsOn outcome positions).

(** The price a stats entry was computed from, as [computeStatsFromPrices]
    reads it. *)
Definition priceOf `{Fmt} (price : string) : float :=
  match Sscanf_f price with
  | Some v => v
  | None => 0%float
  end.

(** A scan of named keys that keeps the first key greater than all before
    it: [popular] and [max] are that key's name and value, or [""] and 0
    when no key is greater than 0. *)
Definition firstMax (keys : list (string * float)) (popular : string) (max : float)
  : Prop :=
  (popular = "" /\ max = 0%float
   /\ forall name key, (name, key) ∈ keys -> (0 <? key)%float = false)
  \/ exists j : nat,
       keys !! j = Some (popular, max)
       /\ (0 <? max)%float = true
       /\ forall (i : nat) name key, keys !! i = Some (name, key) ->
            (max <? key)%float = false
            /\ ((i < j)%nat -> (max <=? key)%float = false).

(** The scan itself, from a running maximum. *)
Fixpoint scanMax (keys : list (string * float)) (max : float) (popular : string)
  : float * string :=
  match keys with
  | [] => (max, popular)
  | (name, key) :: rest =>
      if (max <? key)%float then scanMax rest key name
      else scanMax rest max popular
  end.

(** The entry the ledger loop appends for the outcome [name] at index [i],
    and the one the price loop appends. *)
Definition ledgerEntry (outcomeUsers : gmap string (gset string)) (totalUsers : Z)
    (OutcomeTokens : list string) (i : nat) (name : string) : OutcomeStats :=
  let userCount :=
    match outcomeUsers !! Sprint (Z.of_nat i) with
    | Some users => Z.of_nat (size users)
    | None => 0
    end in
  {| OutcomeStats_Outcome := name;
     OutcomeStats_OutcomeIndex := Z.of_nat i;
     OutcomeStats_UserCount := userCount;
     OutcomeStats_Percentage :=
       if 0 <? totalUsers
       then (float64 userCount / float64 totalUsers * 100)%float
       else 0%float;
     OutcomeStats_Price := default "" (OutcomeTokens !! i) |}.

Definition priceEntry `{Fmt} (OutcomeTokens : list string) (i : nat) (name : string)
  : OutcomeStats :=
  let price := default "0" (OutcomeTokens !! i) in
  {| OutcomeStats_Outcome := name;
     OutcomeStats_OutcomeIndex := Z.of_nat i;
     OutcomeStats_UserCount := 0;
     OutcomeStats_Percentage := (priceOf price * 100)%float;
     OutcomeStats_Price := price |}.



(** The pairs of outcome label and user that occur in a list of positions. *)
Definition holdings (positions : list PositionData) : gset (string * string) :=
  list_to_set ((fun pos => (PositionData_Outcome pos, PositionData_User_ID pos))
                 <$> positions).

(** *** Binary64 rounding *)

(** [100] as a number of the format: [100 * 2^46 * 2^-46]. *)
Definition hundred : spec_float := S754_finite false 7036874417766400 (-46).

(** A shift record that has lost no digit. *)
Definition exact (mrs : shr_record) : Prop := shr_r mrs = false /\ shr_s mrs = false.

(** [mrs] is what is left of [n] after [k] digits were shifted out: the
    round bit is the last digit shifted out, the sticky bit tells whether
    any digit before it was set. *)
Definition shifted (n k : Z) (mrs : shr_record) : Prop :=
  shr_m mrs = n / 2 ^ k
  /\ (k = 0 -> shr_r mrs = false /\ shr_s mrs = false)
  /\ (0 < k -> shr_r mrs = Z.odd (n / 2 ^ (k - 1))
               /\ shr_s mrs = negb (n mod 2 ^ (k - 1) =? 0)).

(** The mantissa of [n] rounded at [s] digits, to nearest, ties to even. *)
Definition roundAt (n s : Z) : Z :=
  let q := n / 2 ^ s in
  let r := n mod 2 ^ s in
  if (2 ^ s <? 2 * r) || ((2 ^ s =? 2 * r) && Z.odd q) then q + 1 else q.

(** The digits of [n] that do not fit 53, and [n] rounded to 53 digits. *)
Definition excess (n : Z) : Z := Z.max 0 (Zdigits2 n - 53).

Definition roundInt (n : Z) : Z := roundAt n (excess n) * 2 ^ excess n.

(** ** Reference implementations of the interfaces

    Used to run the functions on concrete inputs. *)

Definition digit (c : ascii) : option Z :=
  let n := Z.of_N (N_of_ascii c) in
  if (48 <=? n) && (n <=? 57) then Some (n - 48) else None.

(** Reads the longest run of decimal digits: the number read after [m], how
    many digits there were, and the rest of the string. *)
Fixpoint scanDigits (s : string) (m : Z) (count : nat) : Z * nat * string :=
  match s with
  | String c rest =>
      match digit c with
      | Some d => scanDigits rest (10 * m + d) (S count)
      | None => (m, count, s)
      end
  | EmptyString => (m, count, s)
  end.

Definition signOf (s : string) : bool * string :=
  match s with
  | String "-" rest => (true, rest)
  | String "+" rest => (false, rest)
  | _ => (false, s)
  end.

(** The integer [m] as an unrounded binary float. *)
Definition exactFloat (m : Z) : spec_float :=
  match m with
  | Zpos p => S754_finite false p 0
  | Zneg p => S754_finite true p 0
  | Z0 => S754_zero false
  end.

(** [m / 10^k] rounded once, to the nearest binary64 (ties to even). *)
Definition decimalFloat (m : Z) (k : nat) : float :=
  SF2Prim (SFdiv prec emax (exactFloat m) (exactFloat (10 ^ Z.of_nat k))).

(** A scanner for plain decimal tokens, sign, digits, point, digits, which
    stops at the first character that does not belong to the token. *)
Definition decimalScan : Fmt := fun s =>
  let '(neg, s) := signOf s in
  let '(m, n1, s) := scanDigits s 0 0 in
  let '(m, n2, s) :=
    match s with
    | String "." rest => scanDigits rest m 0
    | _ => (m, 0%nat, s)
    end in
  if (n1 + n2 =? 0)%nat then None
  else
    let v := decimalFloat m n2 in
    Some (if neg then (- v)%float else v).

(** [strconv.Atoi] on decimal text: an optional sign, then digits only, and
    a value that fits 64 bits. *)
Definition decimalAtoi : Strconv := fun s =>
  let '(neg, body) := signOf s in
  match scanDigits body 0 0 with
  | (m, n, EmptyString) =>
      let v := if neg then - m else m in
      if (n =? 0)%nat then None
      else if (- 2 ^ 63 <=? v) && (v <? 2 ^ 63) then Some v
      else None
  | _ => None
  end.

(** An endpoint that plays a script of replies and fails when it runs out. *)
Definition scripted : Subgraph (list PageReply) := fun up _ =>
  match up with
  | [] => ([], QueryFailed)
  | reply :: rest => (rest, reply)
  end.

Definition position (user outcome : string) : PositionData :=
  {| PositionData_ID := user ++ "-" ++ outcome;
     PositionData_User_ID := user;
     PositionData_Outcome := outcome;
     PositionData_Market_ID := "0xc";
     PositionData_QuantityBought := "1";
     PositionData_QuantitySold := "0" |}.

(** An endpoint that returns a full page of 1000 records to every request. *)
Definition endless : Subgraph unit := fun up _ =>
  (up, Positions (replicate 1000 (position "u" "0"))).

(** An endpoint that holds [data] and answers a request with the [first]
    records from offset [skip] on. *)
Definition serving (data : list PositionData) : Subgraph unit := fun up request =>
  (up, Positions (take (Z.to_nat (Request_first request))
                    (drop (Z.to_nat (Request_skip request)) data))).

Definition market (outcomes prices : list string) : Market :=
  {| Market_ID := "m1";
     Market_ConditionID := "0xc";
     Market_Question := "Q?";
     Market_Description := "";
     Market_Outcomes := outcomes;
     Market_OutcomeTokens := prices;
     Market_EndDate := time.zero;
     Market_Volume := "0";
     Market_Liquidity := "0";
     Market_Active := true |}.

Definition gammaMarket (id endDate : string) (active closed : bool) : GammaMarket :=
  {| GammaMarket_ID := id;
     GammaMarket_ConditionID := "0xc";
     GammaMarket_Question := "Q?";
     GammaMarket_Description := "";
     GammaMarket_Outcomes := "outcomes";
     GammaMarket_OutcomePrices := "prices";
     GammaMarket_EndDateISO := endDate;
     GammaMarket_Volume := "0";
     GammaMarket_Liquidity := "0";
     GammaMarket_Active := active;
     GammaMarket_Closed := closed |}.

(** A decoder that knows two bodies: a search response of one event with
    two open markets without end date, and one market that ended at instant
    1 (the first nanosecond of year 1). *)
Definition cannedJson : Json :=
  {| Unmarshal_strings := fun _ => None;
     Unmarshal_GammaMarkets := fun _ => None;
     Unmarshal_GammaMarket := fun body =>
       if decide (body = "old") then Some (gammaMarket "9" "long ago" true false)
       else None;
     Unmarshal_SearchResponse := fun body =>
       if decide (body = "two") then
         Some {| SearchResponse_Events :=
                   [{| GammaEvent_ID := "e"; GammaEvent_Title := "";
                       GammaEvent_Slug := ""; GammaEvent_Active := true;
                       GammaEvent_Closed := false;
                       GammaEvent_Markets :=
                         [gammaMarket "1" "" true false;
                          gammaMarket "2" "" true false] |}] |}
       else None |}.

Definition cannedTime : TimeParser := fun layout value =>
  if decide (value = "long ago") then Some 1 else None.

(** An HTTP endpoint that plays a script of exchanges and fails when it
    runs out. *)
Definition posted : SubgraphClient.Transport (list SubgraphClient.PostExchange) :=
  fun up _ =>
    match up with
    | [] => ([], SubgraphClient.PostFailed)
    | exchange :: rest => (rest, exchange)
    end.

(** A codec that knows two response bodies, both with data: one with an
    error message, one without. *)
Definition cannedGraphQL : SubgraphClient.GraphQLJson :=
  {| SubgraphClient.Marshal_GraphQLRequest := fun _ => Some "request";
     SubgraphClient.Unmarshal_GraphQLResponse := fun body =>
       if decide (body = "errors") then
         Some {| SubgraphClient.GraphQLResponse_Data := "positions";
                 SubgraphClient.GraphQLResponse_Errors := ["indexing error"] |}
       else if decide (body = "ok") then
         Some {| SubgraphClient.GraphQLResponse_Data := "positions";
                 SubgraphClient.GraphQLResponse_Errors := [] |}
       else None;
     SubgraphClient.Unmarshal_Positions := fun data =>
       if decide (data = "positions") then Some [position "a" "0"] else None |}.

(** A decoder of string arrays that knows the outcomes text of
    [gammaMarket] and not its prices text. *)
Definition outcomesJson : Json :=
  {| Unmarshal_strings := fun text =>
       if decide (text = "outcomes") then Some ["Yes"; "No"] else None;
     Unmarshal_GammaMarkets := fun _ => None;
     Unmarshal_GammaMarket := fun _ => None;
     Unmarshal_SearchResponse := fun _ => None |}.

(** A decoder that knows one listing: an open market without end date, a
    closed one whose end date does not parse, and an open one that ended at
    instant 1. *)
Definition listingJson : Json :=
  {| Unmarshal_strings := fun _ => None;
     Unmarshal_GammaMarkets := fun body =>
       if decide (body = "listing") then
         Some [gammaMarket "1" "" true false;
               gammaMarket "2" "soon" true true;
               gammaMarket "3" "long ago" true false]
       else None;
     Unmarshal_GammaMarket := fun _ => None;
     Unmarshal_SearchResponse := fun _ => None |}.

(** ** Facts about the normalizer and the fetches *)

Section GammaFacts.

Context `{Json, TimeParser, time.Calendar}.

Lemma fetchLoop_filter now gms markets :
  fetchLoop now gms markets =
  markets ++ List.filter (fun m => negb (expired now m)) (map convertGammaMarket gms).
Proof.
  revert markets. induction gms as [|gm gms IH]; intros markets; simpl.
  - by rewrite app_nil_r.
  - destruct (expired now (convertGammaMarket gm)); simpl; rewrite IH.
    + done.
    + by rewrite <- app_assoc.
Qed.

Lemma searchEvent_filter now gms markets :
  searchEvent now gms markets = markets ++ kept now (normalized gms).
Proof.
  revert markets. unfold kept, normalized.
  induction gms as [|gm gms IH]; intros markets; simpl.
  - by rewrite app_nil_r.
  - destruct (GammaMarket_Active gm && negb (GammaMarket_Closed gm)); simpl; [|apply IH].
    destruct (expired now (convertGammaMarket gm)); simpl; rewrite IH.
    + done.
    + by rewrite <- app_assoc.
Qed.

Lemma normalized_app a b : normalized (a ++ b) = normalized a ++ normalized b.
Proof. unfold normalized. by rewrite List.filter_app, map_app. Qed.

Lemma kept_app now a b : kept now (a ++ b) = kept now a ++ kept now b.
Proof. apply List.filter_app. Qed.

Lemma searchLoop_take now limit events markets :
  0 <= limit ->
  markets = [] \/ Z.of_nat (length markets) < limit ->
  searchLoop now limit events markets =
  Returned (take (Z.to_nat limit) (markets ++ kept now (normalized (marketsOf events)))).
Proof.
  intros Hl. revert markets.
  induction events as [|ev events IH]; intros markets Hm; simpl.
  - unfold marketsOf, normalized, kept; simpl. rewrite app_nil_r.
    destruct Hm as [->|Hm]; [by rewrite take_nil|].
    rewrite take_ge; [done|lia].
  - rewrite searchEvent_filter.
    unfold marketsOf; simpl. fold (marketsOf events).
    rewrite normalized_app, kept_app, app_assoc.
    set (ms1 := markets ++ kept now (normalized (GammaEvent_Markets ev))).
    destruct (Z.leb_spec limit (Z.of_nat (length ms1))) as [Hge|Hlt].
    + destruct (Z.ltb_spec limit 0) as [?|_]; [lia|].
      rewrite take_app_le; [done|lia].
    + apply IH. right. lia.
Qed.

(** ** C6, C7, C8: the normalizer and the expiry test *)



(** C7. Normalization is a total function that degrades field by field: an
    outcomes or prices string that does not decode leaves an empty sequence
    (one that decodes gives its elements); the end date is the first of
    the three layouts, tried in order, that parses, and the zero timestamp
    if none does or the string is empty; the other fields are copied. *)
Theorem convertGammaMarket_degrades (gm : GammaMarket) :
  let m := convertGammaMarket gm in
  let value := GammaMarket_EndDateISO gm in
  (Unmarshal_strings (GammaMarket_Outcomes gm) = None -> Market_Outcomes m = [])
  /\ (Unmarshal_strings (GammaMarket_OutcomePrices gm) = None ->
      Market_OutcomeTokens m = [])
  /\ (forall outcomes, GammaMarket_Outcomes gm <> "" ->
        Unmarshal_strings (GammaMarket_Outcomes gm) = Some outcomes ->
        Market_Outcomes m = outcomes)
  /\ (forall prices, GammaMarket_OutcomePrices gm <> "" ->
        Unmarshal_strings (GammaMarket_OutcomePrices gm) = Some prices ->
        Market_OutcomeTokens m = prices)
  /\ Market_EndDate m =
       (if decide (value = "") then time.zero
        else match time_Parse time.RFC3339 value with
             | Some t => t
             | None =>
                 match time_Parse "2006-01-02" value with
                 | Some t => t
                 | None =>
                     match time_Parse "2006-01-02T15:04:05" value with
                     | Some t => t
                     | None => time.zero
                     end
                 end
             end)
  /\ Market_ID m = GammaMarket_ID gm
  /\ Market_ConditionID m = GammaMarket_ConditionID gm
  /\ Market_Question m = GammaMarket_Question gm
  /\ Market_Description m = GammaMarket_Description gm
  /\ Market_Volume m = GammaMarket_Volume gm
  /\ Market_Liquidity m = GammaMarket_Liquidity gm.
Proof.
  simpl. repeat split; try reflexivity.
  - intros E. rewrite E. by destruct (decide _).
  - intros E. rewrite E. by destruct (decide _).
  - intros outcomes Hne E. rewrite E. by rewrite decide_False.
  - intros prices Hne E. rewrite E. by rewrite decide_False.
Qed.

(** C8. The active flag of the normalized Market is the upstream active
    flag and not the upstream closed flag; a record flagged both active and
    closed is inactive. *)
Theorem convertGammaMarket_active (gm : GammaMarket) :
  Market_Active (convertGammaMarket gm) =
    GammaMarket_Active gm && negb (GammaMarket_Closed gm)
  /\ (GammaMarket_Closed gm = true -> Market_Active (convertGammaMarket gm) = false).
Proof.
  split; [reflexivity|]. simpl. intros ->. by rewrite andb_false_r.
Qed.

End GammaFacts.



Lemma convertGammaMarket_degrades_witness :
  let m := @convertGammaMarket cannedJson cannedTime (gammaMarket "9" "long ago" true false) in
  Market_Outcomes m = [] /\ Market_OutcomeTokens m = [] /\ Market_EndDate m = 1.
Proof.
  pose proof (@convertGammaMarket_degrades cannedJson cannedTime
                (gammaMarket "9" "long ago" true false)) as (Ho & Hp & _ & _ & Hd & _).
  split; [apply Ho; reflexivity|]. split; [apply Hp; reflexivity|].
  rewrite Hd. reflexivity.
Defined.

Lemma convertGammaMarket_active_witness :
  Market_Active (@convertGammaMarket cannedJson cannedTime (gammaMarket "3" "" true true))
  = false.
Proof.
  apply (@convertGammaMarket_active cannedJson cannedTime (gammaMarket "3" "" true true)).
  reflexivity.
Defined.

(** ** C9: the query parameters of the listing *)

Section ParamFacts.

Context `{Strconv}.

Lemma Get_missing (query : Values) key : query !! key = None -> Get query key = "".
Proof. unfold Get. by intros ->. Qed.

(** C9. The listing takes [limit] 50 when the parameter is missing or
    empty, when it is not a number, and when the number is 0, negative or
    above 100, and takes the number otherwise; it takes [offset] 0 when the
    parameter is missing or empty, not a number, or negative, and takes the
    number otherwise. So the limit passed on is in (0,100] and the offset is
    not negative. *)
Theorem listParams_defaults (query : Values) :
  let l := Get query "limit" in
  let o := Get query "offset" in
  let limit := fst (listParams query) in
  let offset := snd (listParams query) in
  (query !! "limit" = None -> limit = 50)
  /\ (l = "" -> limit = 50)
  /\ (Atoi l = None -> limit = 50)
  /\ (forall parsed, Atoi l = Some parsed -> parsed <= 0 \/ 100 < parsed -> limit = 50)
  /\ (forall parsed, l <> "" -> Atoi l = Some parsed -> 0 < parsed <= 100 ->
        limit = parsed)
  /\ (query !! "offset" = None -> offset = 0)
  /\ (o = "" -> offset = 0)
  /\ (Atoi o = None -> offset = 0)
  /\ (forall parsed, Atoi o = Some parsed -> parsed < 0 -> offset = 0)
  /\ (forall parsed, o <> "" -> Atoi o = Some parsed -> 0 <= parsed ->
        offset = parsed)
  /\ 0 < limit <= 100
  /\ 0 <= offset.
Proof.
  unfold listParams; simpl.
  assert (Hl : forall P : Prop, (Get query "limit" = "" -> P) ->
               query !! "limit" = None -> P).
  { intros P HP Hq. apply HP, Get_missing, Hq. }
  assert (Ho : forall P : Prop, (Get query "offset" = "" -> P) ->
               query !! "offset" = None -> P).
  { intros P HP Hq. apply HP, Get_missing, Hq. }
  split; [apply Hl|]; [intros ->; done|].
  split; [intros ->; done|].
  split; [intros ->; by destruct (decide _)|].
  split.
  { intros parsed -> Hp. destruct (decide _); [done|].
    destruct (Z.ltb_spec 0 parsed), (Z.leb_spec parsed 100); simpl; lia. }
  split.
  { intros parsed Hne -> Hp. rewrite decide_False by done.
    destruct (Z.ltb_spec 0 parsed), (Z.leb_spec parsed 100); simpl; lia. }
  split; [apply Ho|]; [intros ->; done|].
  split; [intros ->; done|].
  split; [intros ->; by destruct (decide _)|].
  split.
  { intros parsed -> Hp. destruct (decide _); [done|].
    destruct (Z.leb_spec 0 parsed); simpl; lia. }
  split.
  { intros parsed Hne -> Hp. rewrite decide_False by done.
    destruct (Z.leb_spec 0 parsed); simpl; lia. }
  split.
  - destruct (decide _); [lia|]. destruct (Atoi _) as [parsed|]; [|lia].
    destruct (Z.ltb_spec 0 parsed), (Z.leb_spec parsed 100); simpl; lia.
  - destruct (decide (Get query "offset" = "")); [lia|].
    destruct (Atoi (Get query "offset")) as [parsed|]; [|lia].
    destruct (Z.leb_spec 0 parsed); simpl; lia.
Qed.

End ParamFacts.

Example listParams_examples :
  let run (limit offset : string) :=
    @listParams decimalAtoi {[ "limit" := [limit]; "offset" := [offset] ]} in
  run "0" "-1" = (50, 0) /\ run "101" "7" = (50, 7) /\ run "100" "0" = (100, 0)
  /\ run "abc" "x" = (50, 0) /\ run "-5" "" = (50, 0) /\ run "25" "300" = (25, 300)
  /\ @listParams decimalAtoi ∅ = (50, 0).
Proof. vm_compute. repeat split. Qed.

Lemma listParams_defaults_witness :
  fst (@listParams decimalAtoi {[ "limit" := ["0"]; "offset" := ["-1"] ]}) = 50
  /\ snd (@listParams decimalAtoi {[ "limit" := ["0"]; "offset" := ["-1"] ]}) = 0
  /\ fst (@listParams decimalAtoi {[ "limit" := ["100"] ]}) = 100.
Proof.
  pose proof (@listParams_defaults decimalAtoi
                {[ "limit" := ["0"]; "offset" := ["-1"] ]})
    as (_ & _ & _ & Hbad & _ & _ & _ & _ & Hneg & _).
  pose proof (@listParams_defaults decimalAtoi {[ "limit" := ["100"] ]})
    as (_ & _ & _ & _ & Hgood & _).
  split; [apply (Hbad 0); [reflexivity|lia]|].
  split; [apply (Hneg (-1)); [reflexivity|lia]|].
  apply (Hgood 100); [discriminate|reflexivity|lia].
Defined.

(** ** C5: the pagination of the ledger fetch *)

Section PaginationFacts.

Context `{Subgraph Upstream}.

Lemma requestsFrom_length marketID skip n :
  length (requestsFrom marketID skip n) = n.
Proof. revert skip. induction n; intros; simpl; [done|]. by rewrite IHn. Qed.

Lemma requestsFrom_lookup marketID skip n (k : nat) :
  (k < n)%nat ->
  requestsFrom marketID skip n !! k =
  Some {| Request_marketId := marketID; Request_first := 1000;
          Request_skip := skip + 1000 * Z.of_nat k |}.
Proof.
  revert skip k. induction n as [|n IH]; intros skip k Hk; [lia|].
  destruct k as [|k].
  - simpl. do 2 f_equal. lia.
  - change (requestsFrom marketID skip (S n) !! S k)
      with (requestsFrom marketID (skip + 1000) n !! k).
    rewrite IH by lia. do 2 f_equal. lia.
Qed.

Lemma positionsLoop_more fuel up marketID limit skip allPositions log run :
  positionsLoop fuel up marketID limit skip allPositions log = Some run ->
  positionsLoop (S fuel) up marketID limit skip allPositions log = Some run.
Proof.
  revert up skip allPositions log.
  induction fuel as [|fuel IH]; intros up skip allPositions log; [discriminate|].
  intros Hrun. simpl in Hrun. simpl.
  destruct (Query up _) as [up1 reply]. destruct reply as [| |positions]; try done.
  destruct (Z.of_nat (length positions) <? limit); [done|].
  destruct (10000 <? skip + limit); [done|].
  apply IH in Hrun. exact Hrun.
Qed.

Lemma positionsLoop_enough fuel fuel' up marketID limit skip allPositions log run :
  (fuel <= fuel')%nat ->
  positionsLoop fuel up marketID limit skip allPositions log = Some run ->
  positionsLoop fuel' up marketID limit skip allPositions log = Some run.
Proof.
  induction 1 as [|fuel' _ IH]; [done|].
  intros Hrun. by apply positionsLoop_more, IH.
Qed.

(** The loop started at offset [skip] with enough fuel: it returns; the
    requests it adds to the log are for pages of 1000 at offsets [skip],
    [skip + 1000], ... none above 10000; every reply but the last is a page
    of at least 1000 records; and the last reply decides the result. *)
Lemma positionsLoop_run fuel up marketID skip allPositions log :
  0 <= skip <= 10000 ->
  10000 - skip < 1000 * Z.of_nat fuel ->
  exists run new,
    positionsLoop fuel up marketID 1000 skip allPositions log = Some run
    /\ Run_log run = log ++ new
    /\ new <> []
    /\ new.*1 = requestsFrom marketID skip (length new)
    /\ replay up (new.*1) = (Run_upstream run, new.*2)
    /\ Forall fullPage (take (length new - 1) (new.*2))
    /\ skip + 1000 * (Z.of_nat (length new) - 1) <= 10000
    /\ endsWith skip (allPositions ++ concat (pageOf <$> new.*2)) (length new)
         (last (new.*2)) (Run_result run).
Proof.
  revert up skip allPositions log.
  induction fuel as [|fuel IH]; intros up skip allPositions log Hskip Hfuel; [lia|].
  simpl. destruct (Query up _) as [up1 reply] eqn:HQ.
  set (request := {| Request_marketId := marketID; Request_first := 1000;
                     Request_skip := skip |}) in *.
  assert (Hone : forall result,
    endsWith skip (allPositions ++ concat (pageOf <$> [reply])) 1 (Some reply) result ->
    exists run new,
      Some {| Run_upstream := up1; Run_log := log ++ [(request, reply)];
              Run_result := result |} = Some run
      /\ Run_log run = log ++ new
      /\ new <> []
      /\ new.*1 = requestsFrom marketID skip (length new)
      /\ replay up (new.*1) = (Run_upstream run, new.*2)
      /\ Forall fullPage (take (length new - 1) (new.*2))
      /\ skip + 1000 * (Z.of_nat (length new) - 1) <= 10000
      /\ endsWith skip (allPositions ++ concat (pageOf <$> new.*2)) (length new)
           (last (new.*2)) (Run_result run)).
  { intros result Hend. eexists _, [(request, reply)].
    split; [reflexivity|]. simpl. rewrite HQ.
    repeat split; try done. lia. }
  destruct reply as [| |positions].
  - apply Hone. simpl. do 2 f_equal. lia.
  - apply Hone. done.
  - destruct (Z.ltb_spec (Z.of_nat (length positions)) 1000) as [Hshort|Hfull].
    { apply Hone. simpl. rewrite app_nil_r. split; [done|]. by left. }
    destruct (Z.ltb_spec 10000 (skip + 1000)) as [Hceil|Hnext].
    { apply Hone. simpl. rewrite app_nil_r. split; [done|]. right. lia. }
    destruct (IH up1 (skip + 1000) (allPositions ++ positions)
                (log ++ [(request, Positions positions)]))
      as (run & new & Hrun & Hlog & Hne & Hreq & Hrep & Hfulls & Hmax & Hend);
      [lia|lia|].
    exists run, ((request, Positions positions) :: new).
    split; [exact Hrun|].
    split; [by rewrite Hlog, <- app_assoc|].
    split; [done|].
    split; [rewrite fmap_cons; cbn [length requestsFrom]; by rewrite <- Hreq|].
    split; [rewrite !fmap_cons; cbn [replay fst]; by rewrite HQ, Hrep|].
    destruct new as [|exchange new]; [done|]. clear Hne.
    split.
    { cbn [length] in *. rewrite fmap_cons.
      replace (S (S (length new)) - 1)%nat with (S (S (length new) - 1)) by lia.
      cbn [firstn]. constructor; [by exists positions|exact Hfulls]. }
    split; [simpl length in *; lia|].
    clear - Hend. rewrite !fmap_cons in *. rewrite last_cons.
    cbn [length concat pageOf snd] in *. rewrite app_assoc.
    destruct (last _) as [lastReply|] eqn:Hlast; [|done].
    unfold endsWith in *.
    destruct lastReply as [| |ps]; [| done |].
    + rewrite Hend. do 2 f_equal. lia.
    + destruct Hend as [-> Hstop]. split; [done|]. lia.
Qed.

Lemma positionsLoop_fuel up marketID :
  exists run, forall fuel, (11 <= fuel)%nat ->
    positionsLoop fuel up marketID 1000 0 [] [] = Some run.
Proof.
  destruct (positionsLoop_run 11 up marketID 0 [] []) as (run & _ & Hrun & _);
    [lia|lia|].
  exists run. intros fuel Hfuel. by eapply positionsLoop_enough.
Qed.

(** C5. The fetch returns for every endpoint, and with any fuel from 11 on
    it returns the same run. It issues between 1 and 11 requests; the
    request number [k] asks for 1000 records at offset [1000 * k], which is
    at most 10000; the log holds the endpoint's replies to these requests in
    order; every reply before the last is a page of at least 1000 records;
    and the run ends at the first reply that is an error (the fetch fails),
    or a page of fewer than 1000 records, or the page at offset 10000, with
    the pages concatenated in request order as the result. *)
Theorem GetMarketPositions_pagination (up : Upstream) (marketID : string) :
  exists run,
    GetMarketPositions up marketID = Some run
    /\ (forall fuel, (11 <= fuel)%nat ->
          positionsLoop fuel up marketID 1000 0 [] [] = Some run)
    /\ (1 <= length (Run_log run) <= 11)%nat
    /\ (forall (k : nat) request reply,
          Run_log run !! k = Some (request, reply) ->
          request = {| Request_marketId := marketID; Request_first := 1000;
                       Request_skip := 1000 * Z.of_nat k |}
          /\ Request_skip request <= 10000
          /\ (S k < length (Run_log run) -> fullPage reply)%nat)
    /\ replay up ((Run_log run).*1) = (Run_upstream run, (Run_log run).*2)
    /\ endsWith 0 (concat (pageOf <$> (Run_log run).*2)) (length (Run_log run))
         (last ((Run_log run).*2)) (Run_result run).
Proof.
  destruct (positionsLoop_run 11 up marketID 0 [] [])
    as (run & new & Hrun & Hlog & Hne & Hreq & Hrep & Hfulls & Hmax & Hend);
    [lia|lia|].
  simpl in Hlog. subst new. exists run.
  split; [exact Hrun|].
  split; [intros fuel Hfuel; by eapply positionsLoop_enough|].
  assert (Hlen : (1 <= length (Run_log run) <= 11)%nat).
  { destruct (Run_log run); [done|]. simpl length in *. lia. }
  split; [exact Hlen|].
  split; [|by split].
  intros k request reply Hk.
  assert (Hklen : (k < length (Run_log run))%nat) by by eapply lookup_lt_Some.
  assert (E : (Run_log run).*1 !! k = Some request) by by rewrite list_lookup_fmap, Hk.
  rewrite Hreq, requestsFrom_lookup in E by done.
  injection E as <-. simpl.
  split; [do 2 f_equal|]. split; [lia|].
  intros Hlast. rewrite Forall_lookup in Hfulls. apply (Hfulls k).
  rewrite lookup_take_lt by lia. by rewrite list_lookup_fmap, Hk.
Qed.

End PaginationFacts.

(** Against the endpoint that always returns a full page, the fetch makes
    11 requests, the last one at offset 10000, and returns 11000 records. *)
Example GetMarketPositions_endless :
  exists run,
    @GetMarketPositions unit endless tt "0xc" = Some run
    /\ Request_skip <$> (Run_log run).*1
       = [0; 1000; 2000; 3000; 4000; 5000; 6000; 7000; 8000; 9000; 10000]
    /\ (exists positions,
          Run_result run = inr positions /\ Z.of_nat (length positions) = 11000).
Proof.
  eexists. split; [reflexivity|]. split; [reflexivity|].
  eexists. split; [reflexivity|]. vm_compute. reflexivity.
Qed.

(** Against a scripted endpoint: two full pages and a short one. *)
Example GetMarketPositions_scripted :
  let full := Positions (replicate 1000 (position "u" "0")) in
  let short := Positions [position "v" "1"] in
  exists run,
    @GetMarketPositions _ scripted [full; full; short; full] "0xc" = Some run
    /\ Request_skip <$> (Run_log run).*1 = [0; 1000; 2000]
    /\ Run_upstream run = [full]
    /\ (exists positions,
          Run_result run = inr positions /\ Z.of_nat (length positions) = 2001).
Proof.
  eexists. split; [reflexivity|]. split; [reflexivity|]. split; [reflexivity|].
  eexists. split; [reflexivity|]. vm_compute. reflexivity.
Qed.

(** ** The order of binary64 *)

Ltac sf_order :=
  unfold SFltb, SFleb, SFeqb;
  repeat match goal with
         | x : spec_float |- _ => destruct x as [[|]|[|]| |[|] ? ?]
         end;
  simpl; try discriminate; try reflexivity;
  change (Pos.compare_cont Eq) with Pos.compare;
  repeat match goal with
         | |- context [Z.compare ?a ?b] => destruct (Z.compare_spec a b); subst
         end;
  simpl; try discriminate; try reflexivity; try lia;
  repeat match goal with
         | |- context [Pos.compare ?a ?b] => destruct (Pos.compare_spec a b); subst
         end;
  simpl; try discriminate; try reflexivity; try lia.

Lemma SFltb_trans x y z : SFltb x y = true -> SFltb y z = true -> SFltb x z = true.
Proof. sf_order. Qed.

Lemma SFltb_leb_trans x y z : SFltb x y = true -> SFleb y z = true -> SFltb x z = true.
Proof. sf_order. Qed.

Lemma SFltb_irrefl x : SFltb x x = false.
Proof. sf_order. Qed.

Lemma SFltb_not_leb x y : SFltb x y = true -> SFleb y x = false.
Proof. sf_order. Qed.

Lemma SFleb_false_ltb x y : SFleb x y = false -> SFltb x y = false.
Proof. sf_order. Qed.

Lemma ltb_trans (x y z : float) :
  (x <? y)%float = true -> (y <? z)%float = true -> (x <? z)%float = true.
Proof. rewrite !ltb_spec. apply SFltb_trans. Qed.

Lemma ltb_leb_trans (x y z : float) :
  (x <? y)%float = true -> (y <=? z)%float = true -> (x <? z)%float = true.
Proof. rewrite !ltb_spec, leb_spec. apply SFltb_leb_trans. Qed.

Lemma ltb_irrefl (x : float) : (x <? x)%float = false.
Proof. rewrite ltb_spec. apply SFltb_irrefl. Qed.

Lemma ltb_not_leb (x y : float) : (x <? y)%float = true -> (y <=? x)%float = false.
Proof. rewrite ltb_spec, leb_spec. apply SFltb_not_leb. Qed.

Lemma leb_false_ltb (x y : float) : (x <=? y)%float = false -> (x <? y)%float = false.
Proof. rewrite ltb_spec, leb_spec. apply SFleb_false_ltb. Qed.

Lemma eqb_zero_not_pos (x : float) : (x =? 0)%float = true -> (0 <? x)%float = false.
Proof.
  rewrite FloatAxioms.eqb_spec, ltb_spec. change (Prim2SF 0) with (S754_zero false).
  generalize (Prim2SF x). intros s. sf_order.
Qed.

(** ** Rounding to binary64, from [SpecFloat] *)

Local Abbreviation fexp := (SpecFloat.fexp prec emax).

Lemma fexp_eq e : fexp e = Z.max (e - 53) (-1074).
Proof. reflexivity. Qed.

Lemma digits2_log2 p : Zpos (digits2_pos p) = Z.log2 (Zpos p) + 1.
Proof.
  assert (E : forall q, digits2_pos q = Pos.size q).
  { induction q; simpl; congruence. }
  rewrite E. destruct p; simpl; lia.
Qed.

Lemma Zdigits2_log2 m : 0 < m -> Zdigits2 m = Z.log2 m + 1.
Proof. destruct m; try lia. intros _. apply digits2_log2. Qed.

Lemma Zdigits2_bounds m : 0 < m -> 2 ^ (Zdigits2 m - 1) <= m < 2 ^ Zdigits2 m.
Proof.
  intros Hm. rewrite (Zdigits2_log2 m Hm).
  replace (Z.log2 m + 1 - 1) with (Z.log2 m) by lia.
  apply (Z.log2_spec m Hm).
Qed.

Lemma Zdigits2_nonneg m : 0 <= Zdigits2 m.
Proof. destruct m; simpl; lia. Qed.

Lemma Zdigits2_le a b : 0 < a -> a <= b -> Zdigits2 a <= Zdigits2 b.
Proof.
  intros Ha Hab. rewrite !Zdigits2_log2 by lia.
  pose proof (Z.log2_le_mono a b Hab). lia.
Qed.

Lemma Zdigits2_lt_pow2 m k : 0 < m -> 0 <= k -> m < 2 ^ k -> Zdigits2 m <= k.
Proof.
  intros Hm Hk Hlt. rewrite Zdigits2_log2 by done.
  pose proof (proj1 (Z.log2_lt_pow2 m k Hm) Hlt). lia.
Qed.

Lemma Zdigits2_mul_pow2 m k : 0 < m -> 0 <= k -> Zdigits2 (m * 2 ^ k) = Zdigits2 m + k.
Proof.
  intros Hm Hk. rewrite !Zdigits2_log2; [|lia|].
  - rewrite Z.log2_mul_pow2 by lia. lia.
  - apply Z.mul_pos_pos; [lia|]. apply Z.pow_pos_nonneg; lia.
Qed.

Lemma Zdigits2_div_pow2 m k :
  0 < m -> 0 <= k -> k < Zdigits2 m -> Zdigits2 (m / 2 ^ k) = Zdigits2 m - k.
Proof.
  intros Hm Hk Hlt.
  pose proof (Zdigits2_bounds m Hm) as [Hlo Hhi].
  assert (Hq : 2 ^ (Zdigits2 m - 1 - k) <= m / 2 ^ k).
  { apply Z.div_le_lower_bound; [apply Z.pow_pos_nonneg; lia|].
    rewrite <- Z.pow_add_r by lia. replace (k + (Zdigits2 m - 1 - k)) with (Zdigits2 m - 1) by lia.
    exact Hlo. }
  assert (0 < 2 ^ (Zdigits2 m - 1 - k)) by (apply Z.pow_pos_nonneg; lia).
  rewrite (Zdigits2_log2 (m / 2 ^ k)) by lia.
  rewrite <- Z.shiftr_div_pow2 by lia. rewrite Z.log2_shiftr by lia.
  rewrite (Zdigits2_log2 m) in * by lia. lia.
Qed.

Lemma fexp_mono a b : a <= b -> fexp a <= fexp b.
Proof. rewrite !fexp_eq. lia. Qed.

Lemma fexp_ge_emin a : -1074 <= fexp a.
Proof. rewrite fexp_eq. lia. Qed.

(** Shifting right. *)

Lemma shr_1_m mrs : 0 <= shr_m mrs -> shr_m (shr_1 mrs) = shr_m mrs / 2.
Proof.
  destruct mrs as [m r s]. simpl. intros Hm.
  destruct m as [|[p|p|]|p]; simpl; try lia.
  - reflexivity.
  - rewrite (Pos2Z.inj_xI p). apply (Z.div_unique_pos _ 2 _ 1); lia.
  - rewrite (Pos2Z.inj_xO p). apply (Z.div_unique_pos _ 2 _ 0); lia.
  - reflexivity.
Qed.

Lemma shr_1_exact mrs :
  0 <= shr_m mrs -> exact mrs -> shr_m mrs mod 2 = 0 -> exact (shr_1 mrs).
Proof.
  destruct mrs as [m r s]. unfold exact. simpl. intros Hm [-> ->] Hmod.
  destruct m as [|[p|p|]|p]; simpl; try done; try lia.
  rewrite (Pos2Z.inj_xI p) in Hmod.
  rewrite Z.add_comm, Z.mul_comm, Z.mod_add in Hmod by lia. discriminate.
Qed.

Lemma iter_shr_1 p mrs :
  0 <= shr_m mrs ->
  shr_m (SpecFloat.iter_pos shr_1 p mrs) = shr_m mrs / 2 ^ Zpos p
  /\ (exact mrs -> shr_m mrs mod 2 ^ Zpos p = 0 -> exact (SpecFloat.iter_pos shr_1 p mrs)).
Proof.
  revert mrs. induction p as [p IH|p IH|]; intros mrs Hm.
  - simpl SpecFloat.iter_pos.
    assert (H1 : 0 <= shr_m (shr_1 mrs)).
    { rewrite shr_1_m by done. apply Z.div_pos; lia. }
    destruct (IH (shr_1 mrs) H1) as [E1 X1].
    assert (H2 : 0 <= shr_m (SpecFloat.iter_pos shr_1 p (shr_1 mrs))).
    { rewrite E1. apply Z.div_pos; [lia|]. apply Z.pow_pos_nonneg; lia. }
    destruct (IH _ H2) as [E2 X2].
    assert (P : 0 < 2 ^ Zpos p) by (apply Z.pow_pos_nonneg; lia).
    assert (Epow : 2 ^ Zpos p~1 = 2 * 2 ^ Zpos p * 2 ^ Zpos p).
    { rewrite (Pos2Z.inj_xI p). replace (2 * Zpos p + 1) with (1 + Zpos p + Zpos p) by lia.
      rewrite !Z.pow_add_r by lia. lia. }
    split.
    + rewrite E2, E1, shr_1_m by done. rewrite !Z.div_div by lia.
      f_equal. lia.
    + intros Hex Hmod. rewrite Epow in Hmod.
      apply Z.mod_divide in Hmod; [|lia]. destruct Hmod as [c Hc].
      apply X2; [apply X1; [apply shr_1_exact; try done|]|].
      * rewrite Hc. replace (c * (2 * 2 ^ Zpos p * 2 ^ Zpos p)) with (c * 2 ^ Zpos p * 2 ^ Zpos p * 2) by lia.
        apply Z.mod_mul. lia.
      * rewrite shr_1_m by done. rewrite Hc.
        replace (c * (2 * 2 ^ Zpos p * 2 ^ Zpos p)) with (c * 2 ^ Zpos p * 2 ^ Zpos p * 2) by lia.
        rewrite Z.div_mul by lia.
        replace (c * 2 ^ Zpos p * 2 ^ Zpos p) with (c * 2 ^ Zpos p * 2 ^ Zpos p) by lia.
        apply Z.mod_mul. lia.
      * rewrite E1, shr_1_m by done. rewrite Hc.
        replace (c * (2 * 2 ^ Zpos p * 2 ^ Zpos p)) with (c * 2 ^ Zpos p * 2 ^ Zpos p * 2) by lia.
        rewrite Z.div_mul by lia. rewrite Z.div_mul by lia. apply Z.mod_mul. lia.
  - simpl SpecFloat.iter_pos.
    destruct (IH mrs Hm) as [E1 X1].
    assert (H2 : 0 <= shr_m (SpecFloat.iter_pos shr_1 p mrs)).
    { rewrite E1. apply Z.div_pos; [lia|]. apply Z.pow_pos_nonneg; lia. }
    destruct (IH _ H2) as [E2 X2].
    assert (P : 0 < 2 ^ Zpos p) by (apply Z.pow_pos_nonneg; lia).
    assert (Epow : 2 ^ Zpos p~0 = 2 ^ Zpos p * 2 ^ Zpos p).
    { rewrite (Pos2Z.inj_xO p). replace (2 * Zpos p) with (Zpos p + Zpos p) by lia.
      rewrite !Z.pow_add_r by lia. lia. }
    split.
    + rewrite E2, E1. rewrite !Z.div_div by lia. f_equal. lia.
    + intros Hex Hmod. rewrite Epow in Hmod.
      apply Z.mod_divide in Hmod; [|lia]. destruct Hmod as [c Hc].
      apply X2; [apply X1; try done|].
      * rewrite Hc. rewrite Z.mul_assoc. apply Z.mod_mul. lia.
      * rewrite E1, Hc. rewrite Z.mul_assoc. rewrite Z.div_mul by lia. apply Z.mod_mul. lia.
  - simpl SpecFloat.iter_pos. split.
    + rewrite shr_1_m by done. reflexivity.
    + intros Hex Hmod. apply shr_1_exact; try done.
Qed.

Lemma shr_1_rs mrs :
  0 <= shr_m mrs ->
  shr_r (shr_1 mrs) = Z.odd (shr_m mrs)
  /\ shr_s (shr_1 mrs) = shr_r mrs || shr_s mrs.
Proof.
  destruct mrs as [m r s]. simpl. intros Hm.
  destruct m as [|[p|p|]|p]; simpl; try done; lia.
Qed.

Lemma pow2_pred k : 0 < k -> 2 ^ k = 2 ^ (k - 1) * 2.
Proof.
  intros Hk. rewrite Z.mul_comm, <- Z.pow_succ_r by lia. f_equal. lia.
Qed.

Lemma mod_pow2_split n k :
  0 < k ->
  n mod 2 ^ k =
  n mod 2 ^ (k - 1) + 2 ^ (k - 1) * (if Z.odd (n / 2 ^ (k - 1)) then 1 else 0).
Proof.
  intros Hk. assert (P1 : 0 < 2 ^ (k - 1)) by (apply Z.pow_pos_nonneg; lia).
  rewrite (pow2_pred k Hk), Z.rem_mul_r, Zmod_odd by lia. done.
Qed.

Lemma shifted_step n k mrs :
  0 <= n -> 0 <= k -> shifted n k mrs -> shifted n (k + 1) (shr_1 mrs).
Proof.
  intros Hn Hk (Hm & H0 & Hpos).
  assert (P : 0 < 2 ^ k) by (apply Z.pow_pos_nonneg; lia).
  assert (Hm0 : 0 <= shr_m mrs) by (rewrite Hm; apply Z.div_pos; lia).
  destruct (shr_1_rs mrs Hm0) as [Er Es].
  split; [|split].
  - rewrite shr_1_m, Hm by done. rewrite Z.pow_add_r, Z.div_div by lia. done.
  - lia.
  - intros _. replace (k + 1 - 1) with k by lia. rewrite Er, Es, Hm.
    split; [done|].
    destruct (decide (k = 0)) as [->|Hk0].
    + destruct H0 as [-> ->]; [done|]. by rewrite Z.mod_1_r.
    + destruct Hpos as [-> ->]; [lia|].
      assert (P1 : 0 < 2 ^ (k - 1)) by (apply Z.pow_pos_nonneg; lia).
      rewrite (mod_pow2_split n k) by lia.
      pose proof (Z.mod_pos_bound n (2 ^ (k - 1)) P1).
      destruct (Z.odd (n / 2 ^ (k - 1))); simpl.
      * symmetry. apply negb_true_iff, Z.eqb_neq. lia.
      * rewrite Z.mul_0_r, Z.add_0_r. done.
Qed.

Lemma shifted_iter p n k mrs :
  0 <= n -> 0 <= k -> shifted n k mrs ->
  shifted n (k + Zpos p) (SpecFloat.iter_pos shr_1 p mrs).
Proof.
  intros Hn. revert k mrs. induction p as [p IH|p IH|]; intros k mrs Hk Hs.
  - simpl SpecFloat.iter_pos.
    replace (k + Zpos p~1) with (k + 1 + Zpos p + Zpos p) by lia.
    apply IH; [lia|]. apply IH; [lia|]. by apply shifted_step.
  - simpl SpecFloat.iter_pos.
    replace (k + Zpos p~0) with (k + Zpos p + Zpos p) by lia.
    apply IH; [lia|]. by apply IH.
  - by apply shifted_step.
Qed.

Lemma round_shifted n s mrs :
  0 <= n -> 0 < s -> shifted n s mrs ->
  round_nearest_even (shr_m mrs) (loc_of_shr_record mrs) = roundAt n s.
Proof.
  intros Hn Hs (Hm & _ & Hpos). destruct (Hpos Hs) as [Hr Hst]. clear Hpos.
  assert (P1 : 0 < 2 ^ (s - 1)) by (apply Z.pow_pos_nonneg; lia).
  pose proof (pow2_pred s Hs) as E2.
  pose proof (Z.mod_pos_bound n (2 ^ (s - 1)) P1) as Hlow.
  unfold roundAt. cbv zeta. rewrite <- Hm, (mod_pow2_split n s Hs), <- Hr.
  destruct mrs as [m r st]. simpl in *. subst st.
  destruct r; destruct (Z.eqb_spec (n mod 2 ^ (s - 1)) 0) as [E0|E0]; simpl.
  - rewrite E0. replace (2 ^ s <? 2 * (0 + 2 ^ (s - 1) * 1)) with false
      by (symmetry; apply Z.ltb_ge; lia).
    replace (2 ^ s =? 2 * (0 + 2 ^ (s - 1) * 1)) with true
      by (symmetry; apply Z.eqb_eq; lia).
    simpl. rewrite <- Z.negb_odd. by destruct (Z.odd m).
  - replace (2 ^ s <? 2 * (n mod 2 ^ (s - 1) + 2 ^ (s - 1) * 1)) with true
      by (symmetry; apply Z.ltb_lt; lia).
    done.
  - rewrite E0. replace (2 ^ s <? 2 * (0 + 2 ^ (s - 1) * 0)) with false
      by (symmetry; apply Z.ltb_ge; lia).
    replace (2 ^ s =? 2 * (0 + 2 ^ (s - 1) * 0)) with false
      by (symmetry; apply Z.eqb_neq; lia).
    done.
  - replace (2 ^ s <? 2 * (n mod 2 ^ (s - 1) + 2 ^ (s - 1) * 0)) with false
      by (symmetry; apply Z.ltb_ge; lia).
    replace (2 ^ s =? 2 * (n mod 2 ^ (s - 1) + 2 ^ (s - 1) * 0)) with false
      by (symmetry; apply Z.eqb_neq; lia).
    done.
Qed.

Lemma shr_record_of_loc_m m l : shr_m (shr_record_of_loc m l) = m.
Proof. by destruct l as [|[]]. Qed.

Lemma shr_spec m l e n :
  0 <= m -> 0 <= n ->
  exists mrs,
    shr (shr_record_of_loc m l) e n = (mrs, e + n)
    /\ shr_m mrs = m / 2 ^ n
    /\ (l = loc_Exact -> m mod 2 ^ n = 0 -> loc_of_shr_record mrs = loc_Exact)
    /\ (l = loc_Exact -> 0 < n ->
        round_nearest_even (shr_m mrs) (loc_of_shr_record mrs) = roundAt m n).
Proof.
  intros Hm Hn. destruct n as [|p|p]; [| |lia].
  - exists (shr_record_of_loc m l). simpl. rewrite Z.add_0_r, shr_record_of_loc_m, Z.div_1_r.
    split; [done|]. split; [done|]. split; [by intros ->|lia].
  - destruct (iter_shr_1 p (shr_record_of_loc m l)) as [E X].
    { by rewrite shr_record_of_loc_m. }
    rewrite shr_record_of_loc_m in E, X.
    eexists. split; [reflexivity|]. split; [done|]. split.
    + intros -> Hmod. destruct X as [Hr Hs]; [done|done|].
      destruct (SpecFloat.iter_pos _ _ _) as [m' r s]. simpl in *. by subst.
    + intros -> _. apply round_shifted; [done|done|].
      apply (shifted_iter p m 0); [done|done|].
      split; [simpl; by rewrite Z.div_1_r|]. split; [done|lia].
Qed.

Lemma round_nearest_even_bounds q l :
  q <= round_nearest_even q l <= q + 1
  /\ (l = loc_Exact -> round_nearest_even q l = q).
Proof.
  destruct l as [|[]]; simpl; try destruct (Z.even q); split; try lia; try done.
Qed.

(** The shape of a rounding that starts with enough digits: the mantissa
    is cut at the exponent [e1] the format gives, to [q]; the rounded
    mantissa [m1] is [q] or [q + 1], and [q + 1] only if something was cut
    off; a carry into a further digit is cut again. *)
Lemma binary_round_aux_shape sx mx ex lx :
  0 < mx -> ex <= fexp (Zdigits2 mx + ex) ->
  let e1 := fexp (Zdigits2 mx + ex) in
  let q := mx / 2 ^ (e1 - ex) in
  exists m1,
    q <= m1 <= q + 1
    /\ (m1 = q + 1 -> lx <> loc_Exact \/ mx mod 2 ^ (e1 - ex) <> 0)
    /\ (0 < m1 -> e1 <= fexp (Zdigits2 m1 + e1))
    /\ (lx = loc_Exact -> 0 < e1 - ex -> m1 = roundAt mx (e1 - ex))
    /\ binary_round_aux prec emax sx mx ex lx =
       match m1 with
       | Z0 => S754_zero sx
       | _ =>
         let e2 := fexp (Zdigits2 m1 + e1) in
         match m1 / 2 ^ (e2 - e1) with
         | Z0 => S754_zero sx
         | Zpos m =>
             if e2 <=? emax - prec then S754_finite sx m e2 else S754_infinity sx
         | Zneg _ => S754_nan
         end
       end.
Proof.
  intros Hmx Hex e1 q.
  assert (P : 0 < 2 ^ (e1 - ex)) by (apply Z.pow_pos_nonneg; lia).
  assert (Hq : 0 <= q) by (apply Z.div_pos; lia).
  unfold binary_round_aux, shr_fexp. fold e1.
  destruct (shr_spec mx lx ex (e1 - ex)) as (mrs & -> & Em & Eloc & Ernd); [lia|lia|].
  replace (ex + (e1 - ex)) with e1 by lia. fold q in Em.
  set (m1 := round_nearest_even (shr_m mrs) (loc_of_shr_record mrs)).
  destruct (round_nearest_even_bounds (shr_m mrs) (loc_of_shr_record mrs)) as [Hb Hx].
  fold m1 in Hb, Hx. rewrite Em in Hb, Hx.
  exists m1. split; [done|].
  split.
  { intros Hup. destruct lx as [|c]; [|by left].
    right. intros Hmod. specialize (Hx (Eloc eq_refl Hmod)). lia. }
  assert (Hcarry : 0 < m1 -> e1 <= fexp (Zdigits2 m1 + e1)).
  { intros Hm1. destruct (decide (q = 0)) as [Hq0|Hq0].
    - assert (m1 = 1) as -> by lia.
      assert (mx < 2 ^ (e1 - ex)).
      { apply Z.div_small_iff in Hq0; lia. }
      pose proof (Zdigits2_lt_pow2 mx (e1 - ex)).
      unfold e1 in *. rewrite !fexp_eq in *. simpl Zdigits2. lia.
    - assert (Hd : e1 - ex < Zdigits2 mx).
      { destruct (Z.lt_ge_cases (e1 - ex) (Zdigits2 mx)) as [|Hge]; [done|].
        exfalso. apply Hq0. apply Z.div_small. split; [lia|].
        eapply Z.lt_le_trans; [apply Zdigits2_bounds; lia|].
        apply Z.pow_le_mono_r; lia. }
      pose proof (Zdigits2_div_pow2 mx (e1 - ex)) as Hdq. fold q in Hdq.
      pose proof (Zdigits2_le q m1).
      transitivity (fexp (Zdigits2 q + e1)).
      + rewrite Hdq by lia. replace (Zdigits2 mx - (e1 - ex) + e1) with (Zdigits2 mx + ex) by lia.
        unfold e1. lia.
      + apply fexp_mono. lia. }
  split; [done|]. split; [exact Ernd|].
  destruct (decide (m1 = 0)) as [Hz|Hz].
  - rewrite Hz. simpl Zdigits2. rewrite Z.add_0_l.
    destruct (fexp e1 - e1) eqn:En; simpl; try done.
    assert (Hshift : 0 < fexp e1 - e1) by lia.
    assert (He1 : -1074 <= e1) by apply fexp_ge_emin.
    rewrite fexp_eq in Hshift. lia.
  - assert (Hm1 : 0 < m1) by lia. specialize (Hcarry Hm1).
    destruct (shr_spec m1 loc_Exact e1 (fexp (Zdigits2 m1 + e1) - e1))
      as (mrs2 & -> & Em2 & _ & _); [lia|lia|].
    rewrite Em2.
    replace (e1 + (fexp (Zdigits2 m1 + e1) - e1)) with (fexp (Zdigits2 m1 + e1)) by lia.
    destruct m1; try lia. reflexivity.
Qed.

Lemma bounded_spec m e :
  bounded prec emax m e = true <->
  fexp (Zdigits2 (Zpos m) + e) = e /\ e <= 971.
Proof.
  unfold bounded, canonical_mantissa. rewrite andb_true_iff, Z.eqb_eq, Z.leb_le.
  reflexivity.
Qed.

Lemma bounded_digits m e : bounded prec emax m e = true -> Zpos m < 2 ^ 53 /\ -1074 <= e.
Proof.
  rewrite bounded_spec. intros [Hc _]. rewrite fexp_eq in Hc.
  assert (Hd : Zdigits2 (Zpos m) <= 53) by lia.
  split; [|lia].
  eapply Z.lt_le_trans; [apply Zdigits2_bounds; lia|].
  apply Z.pow_le_mono_r; lia.
Qed.

(** Rounding stays below a number of the format that the exact value does
    not exceed. The exact value is [mx * 2^ex], or slightly more when [lx]
    is not [loc_Exact]; the number of the format is [bm * 2^be]. *)
Lemma binary_round_aux_le sx mx ex lx bm be :
  0 < mx -> ex <= fexp (Zdigits2 mx + ex) ->
  bounded prec emax bm be = true ->
  ex <= be ->
  mx <= Zpos bm * 2 ^ (be - ex) ->
  (lx <> loc_Exact -> mx < Zpos bm * 2 ^ (be - ex)) ->
  binary_round_aux prec emax sx mx ex lx = S754_zero sx
  \/ exists m e,
       binary_round_aux prec emax sx mx ex lx = S754_finite sx m e
       /\ bounded prec emax m e = true
       /\ (e < be \/ (e = be /\ Zpos m <= Zpos bm)).
Proof.
  intros Hmx Hex Hb Hle Hval Hstrict.
  apply bounded_spec in Hb as [Hbc Hbe].
  destruct (binary_round_aux_shape sx mx ex lx Hmx Hex) as (m1 & Hm1 & Hup & Hcarry & _ & ->).
  set (e1 := fexp (Zdigits2 mx + ex)) in *.
  set (q := mx / 2 ^ (e1 - ex)) in *.
  assert (Pbe : 0 < 2 ^ (be - ex)) by (apply Z.pow_pos_nonneg; lia).
  assert (He1 : e1 <= be).
  { rewrite <- Hbc. apply fexp_mono.
    assert (Zdigits2 mx <= Zdigits2 (Zpos bm * 2 ^ (be - ex))) by (apply Zdigits2_le; lia).
    rewrite Zdigits2_mul_pow2 in * by lia. lia. }
  assert (P1 : 0 < 2 ^ (e1 - ex)) by (apply Z.pow_pos_nonneg; lia).
  assert (P2 : 0 < 2 ^ (be - e1)) by (apply Z.pow_pos_nonneg; lia).
  assert (Esplit : 2 ^ (be - ex) = 2 ^ (be - e1) * 2 ^ (e1 - ex)).
  { rewrite <- Z.pow_add_r by lia. f_equal. lia. }
  set (b := Zpos bm * 2 ^ (be - e1)).
  assert (Hb' : Zpos bm * 2 ^ (be - ex) = b * 2 ^ (e1 - ex)).
  { unfold b. rewrite Esplit. lia. }
  rewrite Hb' in Hval, Hstrict.
  assert (Hqb : q <= b).
  { unfold q. apply Z.div_le_upper_bound; lia. }
  assert (Hm1b : m1 <= b).
  { destruct (decide (m1 = q)) as [->|Hne]; [done|].
    assert (Hup' : m1 = q + 1) by lia.
    assert (mx < b * 2 ^ (e1 - ex)).
    { destruct (Hup Hup') as [Hl|Hmod]; [by apply Hstrict|].
      destruct (decide (mx = b * 2 ^ (e1 - ex))) as [E|E]; [|lia].
      exfalso. apply Hmod. rewrite E. apply Z.mod_mul. lia. }
    assert (q < b); [|lia].
    unfold q. apply Z.div_lt_upper_bound; lia. }
  destruct (decide (m1 = 0)) as [->|Hnz]; [by left|].
  assert (H0 : 0 < m1).
  { assert (0 <= q) by (apply Z.div_pos; lia). lia. }
  specialize (Hcarry H0).
  set (e2 := fexp (Zdigits2 m1 + e1)) in *.
  assert (He1min : -1074 <= e1) by apply fexp_ge_emin.
  assert (Hshift : e2 - e1 < Zdigits2 m1).
  { pose proof (Zdigits2_bounds m1 H0).
    assert (1 <= Zdigits2 m1).
    { destruct (Z.le_gt_cases 1 (Zdigits2 m1)); [done|].
      pose proof (Zdigits2_nonneg m1). assert (Zdigits2 m1 = 0) as E0 by lia.
      rewrite E0 in *. simpl in *. lia. }
    unfold e2. rewrite fexp_eq. lia. }
  assert (He2 : e2 <= be).
  { rewrite <- Hbc. apply fexp_mono.
    assert (Zdigits2 m1 <= Zdigits2 b) by (apply Zdigits2_le; lia).
    unfold b in *. rewrite Zdigits2_mul_pow2 in * by lia. lia. }
  assert (P3 : 0 < 2 ^ (e2 - e1)) by (apply Z.pow_pos_nonneg; lia).
  pose proof (Zdigits2_div_pow2 m1 (e2 - e1) H0) as Hd2.
  assert (Hm2 : 0 < m1 / 2 ^ (e2 - e1)).
  { apply Z.div_str_pos. split; [lia|].
    eapply Z.le_trans; [|apply Zdigits2_bounds; lia].
    apply Z.pow_le_mono_r; lia. }
  right. destruct m1 as [|p1|p1]; try lia. cbv zeta. fold e2.
  destruct (Z.pos p1 / 2 ^ (e2 - e1)) as [|m2|m2] eqn:Em2; try lia.
  exists m2, e2.
  destruct (Z.leb_spec e2 (emax - prec)) as [_|Hbig]; [|unfold emax, prec in Hbig; lia].
  split; [reflexivity|]. split.
  - apply bounded_spec. split; [|lia].
    rewrite Hd2 by lia. unfold e2. f_equal. lia.
  - destruct (decide (e2 = be)) as [E|E]; [|left; lia].
    right. split; [done|]. rewrite <- Em2. rewrite E.
    apply Z.div_le_upper_bound; [lia|]. unfold b in Hm1b. lia.
Qed.

(** Rounding does not reach zero when a digit is left after the cut. *)
Lemma binary_round_aux_pos sx mx ex lx :
  0 < mx -> ex <= fexp (Zdigits2 mx + ex) ->
  fexp (Zdigits2 mx + ex) - ex < Zdigits2 mx ->
  (exists m e, binary_round_aux prec emax sx mx ex lx = S754_finite sx m e)
  \/ binary_round_aux prec emax sx mx ex lx = S754_infinity sx.
Proof.
  intros Hmx Hex Hd.
  destruct (binary_round_aux_shape sx mx ex lx Hmx Hex) as (m1 & Hm1 & _ & Hcarry & _ & ->).
  set (e1 := fexp (Zdigits2 mx + ex)) in *.
  set (q := mx / 2 ^ (e1 - ex)) in *.
  assert (Hq : 0 < q).
  { apply Z.div_str_pos. split; [apply Z.pow_pos_nonneg; lia|].
    eapply Z.le_trans; [|apply Zdigits2_bounds; lia].
    apply Z.pow_le_mono_r; lia. }
  assert (H0 : 0 < m1) by lia. specialize (Hcarry H0).
  set (e2 := fexp (Zdigits2 m1 + e1)) in *.
  assert (He1min : -1074 <= e1) by apply fexp_ge_emin.
  assert (Hshift : e2 - e1 < Zdigits2 m1).
  { pose proof (Zdigits2_bounds m1 H0).
    assert (1 <= Zdigits2 m1).
    { destruct (Z.le_gt_cases 1 (Zdigits2 m1)); [done|].
      pose proof (Zdigits2_nonneg m1). assert (Zdigits2 m1 = 0) as E0 by lia.
      rewrite E0 in *. simpl in *. lia. }
    unfold e2. rewrite fexp_eq. lia. }
  assert (Hm2 : 0 < m1 / 2 ^ (e2 - e1)).
  { apply Z.div_str_pos. split; [apply Z.pow_pos_nonneg; lia|].
    eapply Z.le_trans; [|apply Zdigits2_bounds; lia].
    apply Z.pow_le_mono_r; lia. }
  destruct m1 as [|p1|p1]; try lia. cbv zeta. fold e2.
  destruct (Z.pos p1 / 2 ^ (e2 - e1)) as [|m2|m2]; try lia.
  destruct (e2 <=? emax - prec); [left; eauto|by right].
Qed.

(** A number of the format rounds to itself. *)
Lemma binary_round_aux_exact sx m e :
  bounded prec emax m e = true ->
  binary_round_aux prec emax sx (Zpos m) e loc_Exact = S754_finite sx m e.
Proof.
  intros Hb. apply bounded_spec in Hb as [Hc He].
  destruct (binary_round_aux_shape sx (Zpos m) e loc_Exact) as (m1 & Hm1 & Hup & _ & _ & ->);
    [lia|lia|].
  rewrite Hc in *. rewrite Z.sub_diag in *. change (2 ^ 0) with 1 in *.
  rewrite Z.div_1_r in *.
  assert (m1 = Zpos m) as ->.
  { destruct (decide (m1 = Zpos m)) as [|Hne]; [done|].
    destruct Hup as [Hl|Hmod]; [lia|done|].
    exfalso. apply Hmod. apply Z.mod_1_r. }
  cbv zeta. rewrite Hc, Z.sub_diag. change (2 ^ 0) with 1. rewrite Z.div_1_r.
  destruct (Z.leb_spec e (emax - prec)) as [|Hbig]; [done|].
  unfold emax, prec in Hbig. lia.
Qed.

Lemma iter_xO p k : Zpos (Pos.iter xO p k) = Zpos p * 2 ^ Zpos k.
Proof.
  induction k as [|k IH] using Pos.peano_ind.
  - simpl. lia.
  - rewrite Pos.iter_succ, Pos2Z.inj_xO, IH, Pos2Z.inj_succ, Z.pow_succ_r by lia. lia.
Qed.

(** An integer below [2^53] converts exactly, to a normal number. *)
Lemma binary_normalize_small n :
  0 < n < 2 ^ 53 ->
  exists m,
    binary_normalize prec emax n 0 false = S754_finite false m (Zdigits2 n - 53)
    /\ Zpos m = n * 2 ^ (53 - Zdigits2 n)
    /\ Zdigits2 (Zpos m) = 53.
Proof.
  intros [Hn Hhi]. destruct n as [|p|p]; try lia.
  assert (Hd : 1 <= Zdigits2 (Zpos p) <= 53).
  { split.
    - rewrite Zdigits2_log2 by lia. pose proof (Z.log2_nonneg (Zpos p)). lia.
    - apply Zdigits2_lt_pow2; lia. }
  unfold binary_normalize, binary_round, shl_align.
  change (Zpos (digits2_pos p)) with (Zdigits2 (Zpos p)).
  rewrite Z.add_0_r, fexp_eq, Z.sub_0_r.
  replace (Z.max (Zdigits2 (Zpos p) - 53) (-1074)) with (Zdigits2 (Zpos p) - 53) by lia.
  destruct (Zdigits2 (Zpos p) - 53) as [|k|k] eqn:Ek; try lia.
  - exists p. assert (Zdigits2 (Zpos p) = 53) as E53 by lia.
    rewrite E53 in *. change (2 ^ (53 - 53)) with 1.
    split; [|lia]. apply binary_round_aux_exact.
    apply bounded_spec. rewrite E53. done.
  - exists (Pos.iter xO p k).
    assert (Ek' : 53 - Zdigits2 (Zpos p) = Zpos k) by lia.
    assert (Edig : Zdigits2 (Zpos (Pos.iter xO p k)) = 53).
    { rewrite iter_xO, Zdigits2_mul_pow2 by lia. lia. }
    split; [|split; [by rewrite iter_xO, Ek'|done]].
    apply binary_round_aux_exact.
    apply bounded_spec. rewrite Edig, fexp_eq. lia.
Qed.

Lemma new_location_exact nb_steps k :
  new_location nb_steps k = loc_Exact -> k = 0.
Proof.
  unfold new_location, new_location_even, new_location_odd.
  destruct (Z.even nb_steps); destruct (Z.eqb_spec k 0); done.
Qed.

(** The quotient of two positive normal numbers, the first not above the
    second, is a number of the format that is at most 1. *)
Lemma SFdiv_le_one mx ex my ey :
  Zdigits2 (Zpos mx) = 53 -> Zdigits2 (Zpos my) = 53 ->
  -1021 <= ex - ey ->
  ex < ey \/ (ex = ey /\ Zpos mx <= Zpos my) ->
  exists m e,
    SFdiv prec emax (S754_finite false mx ex) (S754_finite false my ey)
    = S754_finite false m e
    /\ bounded prec emax m e = true
    /\ (e < -52 \/ (e = -52 /\ Zpos m <= 2 ^ 52)).
Proof.
  intros Hdx Hdy Hrange Hle.
  unfold SFdiv, SFdiv_core_binary.
  change (Zdigits2 (Zpos mx)) with (Zpos (digits2_pos mx)) in Hdx.
  change (Zdigits2 (Zpos my)) with (Zpos (digits2_pos my)) in Hdy.
  cbn [Zdigits2]. rewrite Hdx, Hdy.
  replace (53 + ex - (53 + ey)) with (ex - ey) by lia.
  rewrite fexp_eq.
  replace (Z.min (Z.max (ex - ey - 53) (-1074)) (ex - ey)) with (ex - ey - 53) by lia.
  replace (ex - ey - (ex - ey - 53)) with 53 by lia.
  rewrite Z.shiftl_mul_pow2 by lia.
  pose proof (Z_div_mod (Zpos mx * 2 ^ 53) (Zpos my)) as Hdm.
  destruct (Z.div_eucl (Zpos mx * 2 ^ 53) (Zpos my)) as [q r].
  destruct Hdm as [Eq Hr]; [lia|].
  change (Zpos (digits2_pos mx)) with (Zdigits2 (Zpos mx)) in Hdx.
  change (Zpos (digits2_pos my)) with (Zdigits2 (Zpos my)) in Hdy.
  pose proof (Zdigits2_bounds (Zpos mx)) as Bx. rewrite Hdx in Bx.
  pose proof (Zdigits2_bounds (Zpos my)) as By. rewrite Hdy in By.
  change (2 ^ (53 - 1)) with 4503599627370496 in *.
  change (2 ^ 53) with 9007199254740992 in *.
  assert (Hq : 4503599627370496 <= q) by nia.
  assert (Pd : 0 < 2 ^ (ey - ex)) by (apply Z.pow_pos_nonneg; lia).
  assert (Hval : Zpos mx <= Zpos my * 2 ^ (ey - ex)).
  { destruct Hle as [Hlt|[-> Hm]].
    - assert (2 <= 2 ^ (ey - ex)).
      { change 2 with (2 ^ 1) at 1. apply Z.pow_le_mono_r; lia. }
      nia.
    - rewrite Z.sub_diag. change (2 ^ 0) with 1. lia. }
  assert (Esplit : 2 ^ (-52 - (ex - ey - 53)) = 2 * 2 ^ (ey - ex)).
  { replace (-52 - (ex - ey - 53)) with (1 + (ey - ex)) by lia.
    rewrite Z.pow_add_r by lia. reflexivity. }
  destruct (binary_round_aux_le false q (ex - ey - 53) (new_location (Zpos my) r)
              4503599627370496%positive (-52))
    as [Hzero|(m & e & E & Hb & Hcmp)].
  - lia.
  - assert (53 <= Zdigits2 q).
    { replace 53 with (Zdigits2 4503599627370496) by reflexivity.
      apply Zdigits2_le; lia. }
    rewrite fexp_eq. lia.
  - reflexivity.
  - lia.
  - rewrite Esplit. nia.
  - intros Hloc. rewrite Esplit.
    assert (r <> 0).
    { intros ->. apply Hloc. unfold new_location, new_location_even, new_location_odd.
      by destruct (Z.even _). }
    nia.
  - exfalso.
    destruct (binary_round_aux_pos false q (ex - ey - 53) (new_location (Zpos my) r))
      as [(m & e & E)|E]; try congruence.
    + lia.
    + assert (53 <= Zdigits2 q).
      { replace 53 with (Zdigits2 4503599627370496) by reflexivity.
        apply Zdigits2_le; lia. }
      rewrite fexp_eq. lia.
    + assert (53 <= Zdigits2 q).
      { replace 53 with (Zdigits2 4503599627370496) by reflexivity.
        apply Zdigits2_le; lia. }
      rewrite fexp_eq. lia.
  - exists m, e. split; [exact E|]. split; [exact Hb|]. exact Hcmp.
Qed.

Lemma Prim2SF_100 : Prim2SF 100 = hundred.
Proof. reflexivity. Qed.

Lemma Prim2SF_0 : Prim2SF 0 = S754_zero false.
Proof. reflexivity. Qed.

Lemma SFmul_100_enough m e :
  bounded prec emax m e = true ->
  e + -46 <= fexp (Zdigits2 (Zpos (m * 7036874417766400)) + (e + -46))
  /\ fexp (Zdigits2 (Zpos (m * 7036874417766400)) + (e + -46)) - (e + -46)
     < Zdigits2 (Zpos (m * 7036874417766400)).
Proof.
  intros Hb. pose proof (bounded_digits m e Hb) as [Hm He].
  assert (Hd : Zdigits2 (Zpos m) + 52 <= Zdigits2 (Zpos (m * 7036874417766400))).
  { rewrite <- (Zdigits2_mul_pow2 (Zpos m) 52) by lia.
    apply Zdigits2_le; [|rewrite Pos2Z.inj_mul]; lia. }
  assert (1 <= Zdigits2 (Zpos m)).
  { rewrite Zdigits2_log2 by lia. pose proof (Z.log2_nonneg (Zpos m)). lia. }
  rewrite fexp_eq. lia.
Qed.

Lemma SFleb_finite m e bm be :
  e < be \/ (e = be /\ Zpos m <= Zpos bm) ->
  SFleb (S754_finite false m e) (S754_finite false bm be) = true.
Proof.
  intros Hcmp. unfold SFleb, SFcompare.
  destruct Hcmp as [Hlt|[-> Hm]].
  - destruct (Z.compare_spec e be) as [E|E|E]; [lia|reflexivity|lia].
  - rewrite Z.compare_refl. change (Pos.compare_cont Eq) with Pos.compare.
    destruct (Pos.compare_spec m bm) as [E|E|E]; [reflexivity|reflexivity|lia].
Qed.

Lemma SFmul_100 sx m e :
  SFmul prec emax (S754_finite sx m e) hundred =
  binary_round_aux prec emax (xorb sx false) (Zpos (m * 7036874417766400)) (e + -46)
    loc_Exact.
Proof. reflexivity. Qed.

(** A number of the format that is at most 1, times 100, is at most 100. *)
Lemma SFmul_100_le m e :
  bounded prec emax m e = true ->
  e < -52 \/ (e = -52 /\ Zpos m <= 2 ^ 52) ->
  SFleb (S754_zero false) (SFmul prec emax (S754_finite false m e) hundred) = true
  /\ SFleb (SFmul prec emax (S754_finite false m e) hundred) hundred = true.
Proof.
  intros Hb Hle. rewrite SFmul_100. cbn [xorb].
  pose proof (bounded_digits m e Hb) as [Hm He].
  destruct (SFmul_100_enough m e Hb) as [Hex _].
  assert (Pe : 0 < 2 ^ (- e)) by (apply Z.pow_pos_nonneg; lia).
  assert (Hone : Zpos m <= 2 ^ (- e)).
  { destruct Hle as [Hlt|[-> Hm52]]; [|done].
    transitivity (2 ^ 53); [lia|]. apply Z.pow_le_mono_r; lia. }
  destruct (binary_round_aux_le false (Zpos (m * 7036874417766400)) (e + -46) loc_Exact
              7036874417766400%positive (-46))
    as [E|(m' & e' & E & _ & Hcmp)].
  - lia.
  - exact Hex.
  - reflexivity.
  - lia.
  - replace (-46 - (e + -46)) with (- e) by lia. rewrite Pos2Z.inj_mul. nia.
  - done.
  - rewrite E. split; reflexivity.
  - rewrite E. split; [reflexivity|]. by apply SFleb_finite.
Qed.

Lemma SFmul_100_pos s :
  valid_binary s = true ->
  SFltb (S754_zero false) s = true ->
  SFltb (S754_zero false) (SFmul prec emax s hundred) = true.
Proof.
  destruct s as [[|]|[|]| |[|] m e]; try done.
  intros Hb _. rewrite SFmul_100. cbn [xorb].
  destruct (SFmul_100_enough m e Hb) as [Hex Hd].
  destruct (binary_round_aux_pos false (Zpos (m * 7036874417766400)) (e + -46) loc_Exact)
    as [(m' & e' & E)|E]; [done|exact Hex|exact Hd|by rewrite E|by rewrite E].
Qed.

(** ** Conversion of a 63-bit integer *)

Lemma roundAt_0 n : roundAt n 0 = n.
Proof. unfold roundAt. simpl. by rewrite Z.mod_1_r, Z.div_1_r. Qed.

Lemma roundAt_bounds n s :
  0 <= s -> n / 2 ^ s <= roundAt n s <= n / 2 ^ s + 1.
Proof. intros Hs. unfold roundAt. cbv zeta. destruct (_ || _); lia. Qed.

Lemma excess_quotient n :
  0 < n ->
  2 ^ (Zdigits2 n - excess n - 1) <= n / 2 ^ excess n < 2 ^ 53
  /\ Zdigits2 (n / 2 ^ excess n) = Zdigits2 n - excess n.
Proof.
  intros Hn. pose proof (Zdigits2_bounds n Hn) as Hb.
  assert (Hd1 : 1 <= Zdigits2 n).
  { rewrite Zdigits2_log2 by lia. pose proof (Z.log2_nonneg n). lia. }
  assert (He : 0 <= excess n < Zdigits2 n) by (unfold excess; lia).
  pose proof (Zdigits2_div_pow2 n (excess n) Hn) as Hdq.
  assert (P : 0 < 2 ^ excess n) by (apply Z.pow_pos_nonneg; lia).
  assert (Hq : 0 < n / 2 ^ excess n).
  { apply Z.div_str_pos. split; [done|].
    eapply Z.le_trans; [|apply Hb]. apply Z.pow_le_mono_r; lia. }
  pose proof (Zdigits2_bounds _ Hq) as Hbq. rewrite Hdq in Hbq by lia.
  split; [|lia]. split; [lia|].
  eapply Z.lt_le_trans; [apply Hbq|]. apply Z.pow_le_mono_r; unfold excess; lia.
Qed.

Lemma roundInt_bounds n :
  0 < n -> 2 ^ (Zdigits2 n - 1) <= roundInt n <= 2 ^ (53 + excess n).
Proof.
  intros Hn. destruct (excess_quotient n Hn) as [[Hlo Hhi] _].
  assert (He : 0 <= excess n) by (unfold excess; lia).
  assert (Hd1 : 1 <= Zdigits2 n).
  { rewrite Zdigits2_log2 by lia. pose proof (Z.log2_nonneg n). lia. }
  assert (He' : excess n < Zdigits2 n) by (unfold excess; lia).
  pose proof (roundAt_bounds n (excess n) He) as Hr.
  assert (P : 0 < 2 ^ excess n) by (apply Z.pow_pos_nonneg; lia).
  unfold roundInt. split.
  - replace (Zdigits2 n - 1) with (Zdigits2 n - excess n - 1 + excess n) by lia.
    rewrite Z.pow_add_r by lia. apply Z.mul_le_mono_nonneg_r; lia.
  - rewrite Z.pow_add_r by lia. apply Z.mul_le_mono_nonneg_r; lia.
Qed.

Lemma roundInt_mono u t : 0 < u <= t -> roundInt u <= roundInt t.
Proof.
  intros [Hu Hut].
  assert (Hd : Zdigits2 u <= Zdigits2 t) by (apply Zdigits2_le; lia).
  assert (Hd1 : 1 <= Zdigits2 u).
  { rewrite Zdigits2_log2 by lia. pose proof (Z.log2_nonneg u). lia. }
  destruct (decide (excess u = excess t)) as [E|E].
  - unfold roundInt. rewrite E.
    assert (He : 0 <= excess t) by (unfold excess; lia).
    assert (P : 0 < 2 ^ excess t) by (apply Z.pow_pos_nonneg; lia).
    apply Z.mul_le_mono_nonneg_r; [lia|].
    pose proof (Z.div_le_mono u t (2 ^ excess t) P Hut) as Hq.
    pose proof (roundAt_bounds u (excess t) He) as Hbu.
    pose proof (roundAt_bounds t (excess t) He) as Hbt.
    destruct (decide (u / 2 ^ excess t = t / 2 ^ excess t)) as [Eq|Nq]; [|lia].
    assert (Hr : u mod 2 ^ excess t <= t mod 2 ^ excess t).
    { pose proof (Z.div_mod u (2 ^ excess t)). pose proof (Z.div_mod t (2 ^ excess t)).
      rewrite Eq in *. lia. }
    unfold roundAt. cbv zeta. rewrite Eq.
    destruct (Z.ltb_spec (2 ^ excess t) (2 * (u mod 2 ^ excess t))) as [H1|H1];
      destruct (Z.ltb_spec (2 ^ excess t) (2 * (t mod 2 ^ excess t))) as [H2|H2];
      simpl; try lia.
    all: destruct (Z.eqb_spec (2 ^ excess t) (2 * (u mod 2 ^ excess t))) as [H3|H3];
      destruct (Z.eqb_spec (2 ^ excess t) (2 * (t mod 2 ^ excess t))) as [H4|H4];
      simpl; try lia; destruct (Z.odd _); lia.
  - assert (Hlt : excess u + 1 <= excess t) by (unfold excess in *; lia).
    pose proof (roundInt_bounds u Hu) as [_ Hhi].
    pose proof (roundInt_bounds t) as [Hlo _]; [lia|].
    etrans; [exact Hhi|]. etrans; [|exact Hlo].
    apply Z.pow_le_mono_r; unfold excess in *; lia.
Qed.

(** The conversion gives a normal number whose value is [roundInt n]. *)
Lemma binary_normalize_int n :
  0 < n < 2 ^ 63 ->
  exists m e,
    binary_normalize prec emax n 0 false = S754_finite false m e
    /\ Zdigits2 (Zpos m) = 53
    /\ -52 <= e <= 11
    /\ Zpos m * 2 ^ (e + 52) = roundInt n * 2 ^ 52.
Proof.
  intros [Hn Hhi].
  assert (Hd1 : 1 <= Zdigits2 n).
  { rewrite Zdigits2_log2 by lia. pose proof (Z.log2_nonneg n). lia. }
  assert (Hd63 : Zdigits2 n <= 63) by (apply Zdigits2_lt_pow2; lia).
  destruct (Z.lt_ge_cases n (2 ^ 53)) as [Hsmall|Hbig].
  - destruct (binary_normalize_small n) as (m & E & Em & Hdm); [lia|].
    assert (Hd53 : Zdigits2 n <= 53) by (apply Zdigits2_lt_pow2; lia).
    exists m, (Zdigits2 n - 53). split; [exact E|]. split; [exact Hdm|].
    split; [lia|]. unfold roundInt, excess.
    replace (Z.max 0 (Zdigits2 n - 53)) with 0 by lia.
    rewrite roundAt_0, Em. change (2 ^ 0) with 1.
    rewrite Z.mul_1_r, <- Z.mul_assoc, <- Z.pow_add_r by lia.
    do 2 f_equal. lia.
  - assert (Hd54 : 54 <= Zdigits2 n).
    { destruct (Z.lt_ge_cases (Zdigits2 n) 54) as [Hlt|]; [|done].
      pose proof (Zdigits2_bounds n Hn) as [_ Hup].
      assert (2 ^ Zdigits2 n <= 2 ^ 53) by (apply Z.pow_le_mono_r; lia). lia. }
    assert (Hex : excess n = Zdigits2 n - 53) by (unfold excess; lia).
    destruct n as [|p|p]; try lia.
    unfold binary_normalize, binary_round, shl_align.
    change (Zpos (digits2_pos p)) with (Zdigits2 (Zpos p)).
    rewrite Z.add_0_r, fexp_eq, Z.sub_0_r.
    replace (Z.max (Zdigits2 (Zpos p) - 53) (-1074)) with (Zdigits2 (Zpos p) - 53) by lia.
    destruct (Zdigits2 (Zpos p) - 53) as [|k|k] eqn:Ek; try lia.
    assert (E1 : fexp (Zdigits2 (Zpos p) + 0) = excess (Zpos p))
      by (rewrite fexp_eq; lia).
    destruct (binary_round_aux_shape false (Zpos p) 0 loc_Exact)
      as (m1 & Hm1 & _ & _ & Hrnd & ->); [lia|rewrite E1; lia|].
    rewrite E1 in *. rewrite Z.sub_0_r in *. clear E1.
    specialize (Hrnd eq_refl ltac:(lia)).
    destruct (excess_quotient (Zpos p)) as [[Hqlo Hqhi] _]; [lia|].
    replace (Zdigits2 (Zpos p) - excess (Zpos p) - 1) with 52 in Hqlo by lia.
    change (2 ^ 52) with 4503599627370496 in *.
    change (2 ^ 53) with 9007199254740992 in *.
    unfold roundInt. rewrite <- Hrnd. clear Hrnd. cbv zeta.
    destruct (decide (m1 = 9007199254740992)) as [->|Hne].
    + assert (E2 : fexp (Zdigits2 9007199254740992 + excess (Zpos p))
                   = excess (Zpos p) + 1) by (rewrite fexp_eq; simpl Zdigits2; lia).
      rewrite E2.
      replace (excess (Zpos p) + 1 - excess (Zpos p)) with 1 by lia.
      change (9007199254740992 / 2 ^ 1) with 4503599627370496.
      cbv iota beta.
      destruct (Z.leb_spec (excess (Zpos p) + 1) (emax - prec)) as [_|Hover];
        [|unfold emax, prec in Hover; lia].
      exists 4503599627370496%positive, (excess (Zpos p) + 1).
      split; [done|]. split; [done|]. split; [lia|].
      rewrite !Z.pow_add_r by lia. change (2 ^ 1) with 2. lia.
    + assert (Hdm1 : Zdigits2 m1 = 53).
      { apply Z.le_antisymm.
        - apply Zdigits2_lt_pow2; lia.
        - replace 53 with (Zdigits2 4503599627370496) by reflexivity.
          apply Zdigits2_le; lia. }
      assert (E2 : fexp (Zdigits2 m1 + excess (Zpos p)) = excess (Zpos p))
        by (rewrite Hdm1, fexp_eq; lia).
      rewrite E2, Z.sub_diag. change (2 ^ 0) with 1. rewrite Z.div_1_r.
      destruct m1 as [|pm|pm]; try lia. cbv iota beta.
      destruct (Z.leb_spec (excess (Zpos p)) (emax - prec)) as [_|Hover];
        [|unfold emax, prec in Hover; lia].
      exists pm, (excess (Zpos p)). split; [done|]. split; [done|]. split; [lia|].
      rewrite Z.pow_add_r by lia. lia.
Qed.

(** Between normal numbers, the order of the values is the order of the
    pairs of exponent and mantissa. *)
Lemma normal_order mx ex my ey :
  Zdigits2 (Zpos mx) = 53 -> Zdigits2 (Zpos my) = 53 ->
  -52 <= ex -> -52 <= ey ->
  Zpos mx * 2 ^ (ex + 52) <= Zpos my * 2 ^ (ey + 52) ->
  ex < ey \/ (ex = ey /\ Zpos mx <= Zpos my).
Proof.
  intros Hdx Hdy Hx Hy Hle.
  pose proof (Zdigits2_bounds (Zpos mx)) as Bx. rewrite Hdx in Bx.
  pose proof (Zdigits2_bounds (Zpos my)) as By. rewrite Hdy in By.
  change (2 ^ (53 - 1)) with 4503599627370496 in *.
  change (2 ^ 53) with 9007199254740992 in *.
  assert (Py : 0 < 2 ^ (ey + 52)) by (apply Z.pow_pos_nonneg; lia).
  destruct (Z.lt_trichotomy ex ey) as [Hlt|[->|Hgt]].
  - by left.
  - right. split; [done|]. nia.
  - exfalso.
    assert (E : 2 ^ (ex + 52) = 2 ^ (ex - ey) * 2 ^ (ey + 52)).
    { rewrite <- Z.pow_add_r by lia. f_equal. lia. }
    assert (2 <= 2 ^ (ex - ey)).
    { change 2 with (2 ^ 1) at 1. apply Z.pow_le_mono_r; lia. }
    rewrite E in Hle. nia.
Qed.

(** The percentage of the ledger mode lies between 0 and 100. *)
Lemma float64_spec n :
  0 <= n < 2 ^ 63 ->
  Prim2SF (of_uint63 (Uint63.of_Z n)) = binary_normalize prec emax n 0 false.
Proof.
  intros Hn. rewrite of_uint63_spec. f_equal.
  rewrite Uint63.of_Z_spec. apply Z.mod_small.
  change Uint63.wB with (2 ^ 63). lia.
Qed.

Lemma percentage_bounds u t :
  0 <= u <= t -> 0 < t < 2 ^ 63 ->
  let pct := (of_uint63 (Uint63.of_Z u) / of_uint63 (Uint63.of_Z t) * 100)%float in
  (0 <=? pct)%float = true /\ (pct <=? 100)%float = true.
Proof.
  intros Hu Ht pct. unfold pct.
  rewrite !leb_spec, mul_spec, div_spec, Prim2SF_100, Prim2SF_0.
  unfold SF64mul, SF64div. rewrite !float64_spec by lia.
  destruct (binary_normalize_int t Ht) as (mt & et & -> & Hdt & Het & Evt).
  destruct (decide (u = 0)) as [->|Hnz]; [done|].
  destruct (binary_normalize_int u) as (mu & eu & -> & Hdu & Heu & Evu); [lia|].
  destruct (SFdiv_le_one mu eu mt et) as (m & e & -> & Hb & Hcmp); try done; try lia.
  { assert (Hval : roundInt u <= roundInt t) by (apply roundInt_mono; lia).
    change (2 ^ 52) with 4503599627370496 in *.
    apply normal_order; try done; lia. }
  by apply SFmul_100_le.
Qed.

Lemma mul_100_pos (x : float) :
  (0 <? x)%float = true -> (0 <? x * 100)%float = true.
Proof.
  rewrite !ltb_spec, mul_spec, Prim2SF_100, Prim2SF_0.
  unfold SF64mul. apply SFmul_100_pos, Prim2SF_valid.
Qed.

(** ** Facts about the statistics *)

Section StatsFacts.

Context `{Fmt}.

Lemma usersOf_cons pos positions :
  usersOf (pos :: positions) = {[PositionData_User_ID pos]} ∪ usersOf positions.
Proof. reflexivity. Qed.

Lemma positionsOn_cons k pos positions :
  positionsOn k (pos :: positions) =
  if decide (PositionData_Outcome pos = k) then pos :: positionsOn k positions
  else positionsOn k positions.
Proof. unfold positionsOn. by rewrite filter_cons. Qed.

Lemma elem_of_usersOf user positions :
  user ∈ usersOf positions <->
  exists pos, pos ∈ positions /\ PositionData_User_ID pos = user.
Proof.
  unfold usersOf. rewrite elem_of_list_to_set, list_elem_of_fmap. naive_solver.
Qed.

Lemma elem_of_usersOn user k positions :
  user ∈ usersOn k positions <->
  exists pos, pos ∈ positions /\ PositionData_Outcome pos = k
              /\ PositionData_User_ID pos = user.
Proof.
  unfold usersOn, positionsOn. rewrite elem_of_usersOf.
  setoid_rewrite list_elem_of_filter. naive_solver.
Qed.

Lemma usersOn_subseteq k positions : usersOn k positions ⊆ usersOf positions.
Proof.
  intros user. rewrite elem_of_usersOn, elem_of_usersOf. naive_solver.
Qed.

(** The loop over the positions, from any accumulator. *)
Lemma fold_addPosition positions acc :
  (fold_left addPosition positions acc).2 = acc.2 ∪ usersOf positions
  /\ forall k,
       (fold_left addPosition positions acc).1 !! k =
       match acc.1 !! k with
       | Some users => Some (users ∪ usersOn k positions)
       | None =>
           if decide (positionsOn k positions = []) then None
           else Some (usersOn k positions)
       end.
Proof.
  revert acc. induction positions as [|pos positions IH]; intros [outcomeUsers total].
  - simpl. split; [set_solver|]. intros k.
    destruct (outcomeUsers !! k) as [users|]; [|done].
    f_equal. unfold usersOn, positionsOn, usersOf. set_solver.
  - cbn [fold_left]. destruct (IH (addPosition (outcomeUsers, total) pos)) as [IH2 IH1].
    split.
    { rewrite IH2, usersOf_cons. simpl. set_solver. }
    intros k. rewrite IH1. clear IH1 IH2. unfold usersOn. rewrite positionsOn_cons.
    cbn [addPosition fst].
    destruct (decide (PositionData_Outcome pos = k)) as [->|Hne].
    + rewrite lookup_alter_eq.
      destruct (outcomeUsers !! k) as [users|] eqn:E.
      * cbn iota. rewrite E. simpl. f_equal. rewrite usersOf_cons. set_solver.
      * cbn iota. rewrite lookup_insert_eq. simpl.
        f_equal. rewrite usersOf_cons. set_solver.
    + rewrite lookup_alter_ne by done.
      destruct (outcomeUsers !! PositionData_Outcome pos) as [users|] eqn:E.
      * done.
      * by rewrite lookup_insert_ne.
Qed.

Lemma groupPositions_spec positions :
  (groupPositions positions).2 = usersOf positions
  /\ forall k,
       (groupPositions positions).1 !! k =
       if decide (positionsOn k positions = []) then None
       else Some (usersOn k positions).
Proof.
  unfold groupPositions. destruct (fold_addPosition positions (∅, ∅)) as [H2 H1].
  split; [rewrite H2; simpl; set_solver|].
  intros k. rewrite H1. simpl. by rewrite lookup_empty.
Qed.

Lemma groupPositions_size k positions :
  match (groupPositions positions).1 !! k with
  | Some users => Z.of_nat (size users)
  | None => 0
  end = Z.of_nat (size (usersOn k positions)).
Proof.
  destruct (groupPositions_spec positions) as [_ ->].
  destruct (decide (positionsOn k positions = [])) as [E|E]; [|done].
  unfold usersOn. rewrite E. done.
Qed.

(** The two loops over the outcomes: the entries they append, and the scan
    they make for the maximum. *)
Lemma ledgerLoop_stats outcomeUsers totalUsers tokens i outcomes acc :
  Tally_stats (ledgerLoop outcomeUsers totalUsers tokens i outcomes acc) =
  Tally_stats acc
  ++ imap (fun j name => ledgerEntry outcomeUsers totalUsers tokens (i + j) name) outcomes.
Proof.
  revert i acc. induction outcomes as [|name outcomes IH]; intros i acc.
  - simpl. by rewrite app_nil_r.
  - cbn [ledgerLoop imap]. rewrite IH. clear IH.
    replace (i + 0)%nat with i by lia.
    match goal with |- context [if ?c then _ else _] => destruct c end;
      cbn [Tally_stats]; rewrite <- app_assoc; f_equal; cbn [app];
      (f_equal; try reflexivity; apply imap_ext; intros j x _;
       unfold compose; by rewrite Nat.add_succ_comm).
Qed.

Lemma ledgerLoop_scan outcomeUsers totalUsers tokens i outcomes acc :
  let t := ledgerLoop outcomeUsers totalUsers tokens i outcomes acc in
  (Tally_max t, Tally_popular t) =
  scanMax
    (imap (fun j name =>
             (name, OutcomeStats_Percentage
                      (ledgerEntry outcomeUsers totalUsers tokens (i + j) name)))
       outcomes)
    (Tally_max acc) (Tally_popular acc).
Proof.
  revert i acc. induction outcomes as [|name outcomes IH]; intros i acc; [done|].
  cbn [ledgerLoop imap scanMax]. cbv zeta in IH. rewrite IH. clear IH.
  replace (i + 0)%nat with i by lia.
  change (OutcomeStats_Percentage (ledgerEntry outcomeUsers totalUsers tokens i name))
    with (if 0 <? totalUsers
          then (float64 match outcomeUsers !! Sprint (Z.of_nat i) with
                        | Some users => Z.of_nat (size users)
                        | None => 0
                        end / float64 totalUsers * 100)%float
          else 0%float).
  match goal with |- context [if (?a <? ?b)%float then _ else _] =>
    destruct (a <? b)%float end; cbn [Tally_max Tally_popular];
    (f_equal; apply imap_ext; intros j x _;
     unfold compose; by rewrite Nat.add_succ_comm).
Qed.

Lemma pricesLoop_stats tokens i outcomes acc :
  Tally_stats (pricesLoop tokens i outcomes acc) =
  Tally_stats acc ++ imap (fun j name => priceEntry tokens (i + j) name) outcomes.
Proof.
  revert i acc. induction outcomes as [|name outcomes IH]; intros i acc.
  - simpl. by rewrite app_nil_r.
  - cbn [pricesLoop imap]. rewrite IH. clear IH.
    replace (i + 0)%nat with i by lia.
    match goal with |- context [if ?c then _ else _] => destruct c end;
      cbn [Tally_stats]; rewrite <- app_assoc; f_equal; cbn [app];
      (f_equal; try reflexivity; apply imap_ext; intros j x _;
       unfold compose; by rewrite Nat.add_succ_comm).
Qed.

Lemma pricesLoop_scan tokens i outcomes acc :
  let t := pricesLoop tokens i outcomes acc in
  (Tally_max t, Tally_popular t) =
  scanMax
    (imap (fun j name => (name, priceOf (default "0" (tokens !! (i + j)%nat)))) outcomes)
    (Tally_max acc) (Tally_popular acc).
Proof.
  revert i acc. induction outcomes as [|name outcomes IH]; intros i acc; [done|].
  cbn [pricesLoop imap scanMax]. cbv zeta in IH. rewrite IH. clear IH.
  replace (i + 0)%nat with i by lia.
  change (priceOf (default "0" (tokens !! i)))
    with (match Sscanf_f match tokens !! i with Some p => p | None => "0" end with
          | Some v => v
          | None => 0%float
          end).
  match goal with |- context [if (?a <? ?b)%float then _ else _] =>
    destruct (a <? b)%float end; cbn [Tally_max Tally_popular];
    (f_equal; apply imap_ext; intros j x _;
     unfold compose; by rewrite Nat.add_succ_comm).
Qed.

Lemma scanMax_spec keys max0 pop0 :
  (scanMax keys max0 pop0 = (max0, pop0)
   /\ forall name key, (name, key) ∈ keys -> (max0 <? key)%float = false)
  \/ exists j : nat,
       keys !! j = Some ((scanMax keys max0 pop0).2, (scanMax keys max0 pop0).1)
       /\ (max0 <? (scanMax keys max0 pop0).1)%float = true
       /\ forall (i : nat) name key, keys !! i = Some (name, key) ->
            ((scanMax keys max0 pop0).1 <? key)%float = false
            /\ ((i < j)%nat -> ((scanMax keys max0 pop0).1 <=? key)%float = false).
Proof.
  revert max0 pop0. induction keys as [|[n1 k1] keys IH]; intros max0 pop0.
  - left. split; [done|]. intros name key Hin. by apply elem_of_nil in Hin.
  - cbn [scanMax]. destruct (max0 <? k1)%float eqn:Hc.
    + right. destruct (IH k1 n1) as [[E Hrest]|(j & Hj & Hgt & Hall)].
      * exists 0%nat. rewrite E. split; [done|]. split; [done|].
        intros [|i] name key Hi; simpl in Hi.
        -- injection Hi as <- <-. split; [apply ltb_irrefl|lia].
        -- split; [|lia]. apply (Hrest name). eapply list_elem_of_lookup_2, Hi.
      * exists (S j). split; [done|]. split; [by eapply ltb_trans|].
        intros [|i] name key Hi; simpl in Hi.
        -- injection Hi as <- <-.
           split; [by apply leb_false_ltb, ltb_not_leb|]. intros _. by apply ltb_not_leb.
        -- destruct (Hall i name key Hi) as [H1 H2]. split; [done|]. intros ?. apply H2. lia.
    + destruct (IH max0 pop0) as [[E Hrest]|(j & Hj & Hgt & Hall)].
      * left. split; [done|]. intros name key Hin.
        apply elem_of_cons in Hin as [[= -> ->]|Hin]; [done|by eapply Hrest].
      * right. exists (S j). split; [done|]. split; [done|].
        intros [|i] name key Hi; simpl in Hi.
        -- injection Hi as <- <-.
           assert (Hle : ((scanMax keys max0 pop0).1 <=? k1)%float = false).
           { destruct ((scanMax keys max0 pop0).1 <=? k1)%float eqn:Hle; [|done].
             rewrite (ltb_leb_trans _ _ _ Hgt Hle) in Hc. discriminate. }
           split; [by apply leb_false_ltb|done].
        -- destruct (Hall i name key Hi) as [H1 H2]. split; [done|]. intros ?. apply H2. lia.
Qed.

Lemma scanMax_firstMax keys :
  firstMax keys (scanMax keys 0%float "").2 (scanMax keys 0%float "").1.
Proof.
  destruct (scanMax_spec keys 0%float "") as [[E Hall]|(j & Hj & Hgt & Hall)].
  - left. by rewrite E.
  - right. by exists j.
Qed.

Lemma size_usersOf_zero positions :
  Z.of_nat (size (usersOf positions)) = 0 <-> usersOf positions = ∅.
Proof.
  split.
  - intros E. apply leibniz_equiv, size_empty_iff. lia.
  - intros ->. by rewrite size_empty.
Qed.

Lemma size_usersOf_pos positions :
  usersOf positions <> ∅ -> 0 < Z.of_nat (size (usersOf positions)).
Proof.
  intros Hne. destruct (size_usersOf_zero positions) as [Hz _].
  destruct (decide (Z.of_nat (size (usersOf positions)) = 0)) as [E|E]; [|lia].
  by apply Hz in E.
Qed.

(** What [statsOf] returns, case by case. *)
Lemma statsOf_cases market fetched :
  statsOf market fetched =
  (match fetched with
   | inl _ => computeStatsFromPrices market
   | inr positions =>
       if decide (usersOf positions = ∅) then computeStatsFromPrices market
       else ledgerStats market (groupPositions positions).1
              (Z.of_nat (size (usersOf positions)))
   end, None).
Proof.
  unfold statsOf. destruct fetched as [e|positions]; [done|].
  destruct (groupPositions positions) as [outcomeUsers total] eqn:G.
  pose proof (groupPositions_spec positions) as [Etotal _].
  rewrite G in Etotal. simpl in Etotal. subst total. simpl.
  destruct (Z.eqb_spec (Z.of_nat (size (usersOf positions))) 0) as [E|E].
  - apply size_usersOf_zero in E. by rewrite decide_True.
  - rewrite decide_False; [done|]. intros E'. by apply E, size_usersOf_zero.
Qed.

Lemma ledgerStats_entries market outcomeUsers totalUsers :
  MarketStats_OutcomeStats (ledgerStats market outcomeUsers totalUsers) =
  imap (ledgerEntry outcomeUsers totalUsers (Market_OutcomeTokens market))
    (Market_Outcomes market).
Proof. unfold ledgerStats. cbn [MarketStats_OutcomeStats]. by rewrite ledgerLoop_stats. Qed.

Lemma computeStatsFromPrices_entries market :
  MarketStats_OutcomeStats (computeStatsFromPrices market) =
  imap (priceEntry (Market_OutcomeTokens market)) (Market_Outcomes market).
Proof.
  unfold computeStatsFromPrices. cbn [MarketStats_OutcomeStats].
  by rewrite pricesLoop_stats.
Qed.

End StatsFacts.

(** ** C1, C2, C3, C4, C10: the statistics *)

Section StatsClaims.

Context `{Subgraph Upstream, Fmt}.

(** C1. [ComputeMarketStats] returns for every Market and every endpoint,
    and the error it returns is nil. When the fetch of the positions failed,
    or succeeded with no user in any position, the stats are those of the
    price mode, whose total of users is 0; otherwise they are those of the
    ledger mode, and the total of users is the number of distinct users,
    which is not 0. *)
Theorem ComputeMarketStats_total (up : Upstream) (market : Market) :
  exists run stats,
    GetMarketPositions up (Market_ConditionID market) = Some run
    /\ ComputeMarketStats up market = Some (stats, None)
    /\ match Run_result run with
       | inl _ => stats = computeStatsFromPrices market
       | inr positions =>
           if decide (usersOf positions = ∅)
           then stats = computeStatsFromPrices market
           else stats = ledgerStats market (groupPositions positions).1
                          (Z.of_nat (size (usersOf positions)))
                /\ MarketStats_TotalUsers stats = Z.of_nat (size (usersOf positions))
                /\ 0 < MarketStats_TotalUsers stats
       end
    /\ MarketStats_TotalUsers (computeStatsFromPrices market) = 0.
Proof.
  destruct (positionsLoop_fuel up (Market_ConditionID market)) as [run Hrun].
  specialize (Hrun 11%nat (le_n _)).
  exists run. eexists. split; [exact Hrun|].
  unfold ComputeMarketStats, GetMarketPositions. rewrite Hrun, statsOf_cases.
  split; [reflexivity|]. split; [|reflexivity].
  destruct (Run_result run) as [e|positions]; [done|].
  destruct (decide (usersOf positions = ∅)) as [E|E]; [done|].
  split; [done|]. split; [done|]. by apply size_usersOf_pos.
Qed.

(** C2. In ledger mode the positions are grouped into one set of users
    for each outcome label that occurs, and one set of all users. The entry
    for the outcome at index [i] counts the users of the group whose label
    is the decimal rendering of [i], which is 0 when there is no such group,
    and its percentage is that count, as a float, divided by the total of
    users and multiplied by 100. *)
Theorem ledger_mode_entries (up : Upstream) (market : Market)
    (run : Run Upstream) (positions : list PositionData) :
  GetMarketPositions up (Market_ConditionID market) = Some run ->
  Run_result run = inr positions ->
  usersOf positions <> ∅ ->
  exists stats,
    ComputeMarketStats up market = Some (stats, None)
    /\ (groupPositions positions).2 = usersOf positions
    /\ (forall k, (groupPositions positions).1 !! k =
                  if decide (positionsOn k positions = []) then None
                  else Some (usersOn k positions))
    /\ (forall user, user ∈ usersOf positions <->
          exists pos, pos ∈ positions /\ PositionData_User_ID pos = user)
    /\ (forall k user, user ∈ usersOn k positions <->
          exists pos, pos ∈ positions /\ PositionData_Outcome pos = k
                      /\ PositionData_User_ID pos = user)
    /\ (forall k, (groupPositions positions).1 !! k = None ->
                  size (usersOn k positions) = 0%nat)
    /\ MarketStats_TotalUsers stats = Z.of_nat (size (usersOf positions))
    /\ length (MarketStats_OutcomeStats stats) = length (Market_Outcomes market)
    /\ forall (i : nat) name,
         Market_Outcomes market !! i = Some name ->
         MarketStats_OutcomeStats stats !! i =
         Some {| OutcomeStats_Outcome := name;
                 OutcomeStats_OutcomeIndex := Z.of_nat i;
                 OutcomeStats_UserCount :=
                   Z.of_nat (size (usersOn (Sprint (Z.of_nat i)) positions));
                 OutcomeStats_Percentage :=
                   (float64 (Z.of_nat (size (usersOn (Sprint (Z.of_nat i)) positions)))
                    / float64 (Z.of_nat (size (usersOf positions))) * 100)%float;
                 OutcomeStats_Price :=
                   default "" (Market_OutcomeTokens market !! i) |}.
Proof.
  intros Hrun Hres Hne.
  unfold ComputeMarketStats. rewrite Hrun, Hres, statsOf_cases, decide_False by done.
  eexists. split; [reflexivity|].
  destruct (groupPositions_spec positions) as [Etotal Egroups].
  split; [done|]. split; [done|].
  split; [intros user; apply elem_of_usersOf|].
  split; [intros k user; apply elem_of_usersOn|].
  split.
  { intros k. rewrite Egroups. destruct (decide _) as [E|E]; [|done].
    intros _. unfold usersOn. by rewrite E. }
  split; [done|]. rewrite ledgerStats_entries.
  split; [apply length_imap|].
  intros i name Hi. rewrite list_lookup_imap, Hi. simpl. f_equal.
  unfold ledgerEntry. rewrite groupPositions_size.
  assert (Hpos : 0 < Z.of_nat (size (usersOf positions)))
    by by apply size_usersOf_pos.
  destruct (Z.ltb_spec 0 (Z.of_nat (size (usersOf positions)))); [done|lia].
Qed.

(** C3. In price mode the total of users is 0 and there is one entry for
    each outcome, in order. The entry at index [i] has the price string at
    that index, or ["0"] when there is none, a user count of 0, and as
    percentage the scanned price times 100; a price that does not scan
    counts as 0.0 and gives the percentage 0. Outcomes Yes and No with
    prices 0.7 and 0.3, scanned to the nearest floats, give the percentages
    70 and 30, the popular outcome Yes and the popular percentage 70. *)
Theorem price_mode_entries (market : Market) :
  let stats := computeStatsFromPrices market in
  MarketStats_TotalUsers stats = 0
  /\ length (MarketStats_OutcomeStats stats) = length (Market_Outcomes market)
  /\ (forall (i : nat) name,
        Market_Outcomes market !! i = Some name ->
        let price := default "0" (Market_OutcomeTokens market !! i) in
        MarketStats_OutcomeStats stats !! i =
        Some {| OutcomeStats_Outcome := name;
                OutcomeStats_OutcomeIndex := Z.of_nat i;
                OutcomeStats_UserCount := 0;
                OutcomeStats_Percentage := (priceOf price * 100)%float;
                OutcomeStats_Price := price |}
        /\ (forall v, Sscanf_f price = Some v -> priceOf price = v)
        /\ (Sscanf_f price = None ->
            priceOf price = 0%float /\ (priceOf price * 100)%float = 0%float))
  /\ (Market_Outcomes market = ["Yes"; "No"] ->
      Market_OutcomeTokens market = ["0.7"; "0.3"] ->
      Sscanf_f "0.7" = Some (7 / 10)%float ->
      Sscanf_f "0.3" = Some (3 / 10)%float ->
      OutcomeStats_Percentage <$> MarketStats_OutcomeStats stats
        = [70%float; 30%float]
      /\ MarketStats_PopularOutcome stats = "Yes"
      /\ MarketStats_PopularPct stats = 70%float).
Proof.
  intros stats. split; [reflexivity|].
  unfold stats. rewrite computeStatsFromPrices_entries.
  split; [apply length_imap|]. split.
  - intros i name Hi. rewrite list_lookup_imap, Hi.
    split; [reflexivity|]. unfold priceOf.
    split; [by intros v ->|]. by intros ->.
  - intros Ho Ht H7 H3. unfold computeStatsFromPrices.
    rewrite Ho, Ht. unfold priceEntry, priceOf.
    cbn -[PrimFloat.mul PrimFloat.ltb PrimFloat.div].
    rewrite !H7, !H3. vm_compute. done.
Qed.

Lemma ledgerStats_keys market outcomeUsers totalUsers :
  let stats := ledgerStats market outcomeUsers totalUsers in
  firstMax
    ((fun s => (OutcomeStats_Outcome s, OutcomeStats_Percentage s))
       <$> MarketStats_OutcomeStats stats)
    (MarketStats_PopularOutcome stats) (MarketStats_PopularPct stats).
Proof.
  intros stats. unfold stats. rewrite ledgerStats_entries, fmap_imap.
  unfold ledgerStats. cbn [MarketStats_PopularOutcome MarketStats_PopularPct].
  pose proof (ledgerLoop_scan outcomeUsers totalUsers (Market_OutcomeTokens market)
                0 (Market_Outcomes market) Tally_start) as E.
  cbv zeta in E. cbn [Tally_start Tally_max Tally_popular plus] in E.
  set (t := ledgerLoop _ _ _ _ _ _) in *.
  change (Tally_popular t) with (Tally_max t, Tally_popular t).2.
  change (Tally_max t) with (Tally_max t, Tally_popular t).1 at 2.
  rewrite E. apply scanMax_firstMax.
Qed.

Lemma computeStatsFromPrices_keys market :
  let stats := computeStatsFromPrices market in
  MarketStats_PopularPct stats =
    ((scanMax ((fun s => (OutcomeStats_Outcome s, priceOf (OutcomeStats_Price s)))
                 <$> MarketStats_OutcomeStats stats) 0%float "").1 * 100)%float
  /\ firstMax
       ((fun s => (OutcomeStats_Outcome s, priceOf (OutcomeStats_Price s)))
          <$> MarketStats_OutcomeStats stats)
       (MarketStats_PopularOutcome stats)
       (scanMax ((fun s => (OutcomeStats_Outcome s, priceOf (OutcomeStats_Price s)))
                   <$> MarketStats_OutcomeStats stats) 0%float "").1.
Proof.
  intros stats. unfold stats. rewrite computeStatsFromPrices_entries, fmap_imap.
  unfold computeStatsFromPrices.
  cbn [MarketStats_PopularOutcome MarketStats_PopularPct].
  pose proof (pricesLoop_scan (Market_OutcomeTokens market) 0 (Market_Outcomes market)
                Tally_start) as E.
  cbv zeta in E. cbn [Tally_start Tally_max Tally_popular plus] in E.
  set (t := pricesLoop _ _ _ _) in *.
  set (keys := imap _ _) in E.
  assert (E' : imap (fun n => (fun s => (OutcomeStats_Outcome s, priceOf (OutcomeStats_Price s)))
                      ∘ priceEntry (Market_OutcomeTokens market) n) (Market_Outcomes market)
               = keys).
  { apply imap_ext. done. }
  rewrite E'.
  assert (E1 : Tally_max t = (scanMax keys 0%float "").1) by by rewrite <- E.
  assert (E2 : Tally_popular t = (scanMax keys 0%float "").2) by by rewrite <- E.
  rewrite E1, E2. split; [done|]. apply scanMax_firstMax.
Qed.

(** The selection of the popular outcome as the code makes it. Both modes
    scan the outcomes in index order and replace the running maximum only by
    a strictly greater value, starting from 0.
    In ledger mode the values compared are the percentages: the popular
    outcome is the first one whose percentage is the greatest, and the
    popular percentage is that percentage. In price mode the values compared
    are the scanned prices, before they are multiplied by 100: the popular
    outcome is the first one whose price is the greatest, and the popular
    percentage is that price times 100. In either mode, when no compared
    value is above 0, and so when every percentage is zero, the popular
    outcome is the empty string and the popular percentage is 0. Outcomes A,
    B, C with prices 0.2, 0.2, 0.2 give the popular outcome A. *)
Theorem popular_outcome_selection (market : Market) :
  (forall outcomeUsers totalUsers,
     let stats := ledgerStats market outcomeUsers totalUsers in
     firstMax
       ((fun s => (OutcomeStats_Outcome s, OutcomeStats_Percentage s))
          <$> MarketStats_OutcomeStats stats)
       (MarketStats_PopularOutcome stats) (MarketStats_PopularPct stats)
     /\ ((forall s, s ∈ MarketStats_OutcomeStats stats ->
            (OutcomeStats_Percentage s =? 0)%float = true) ->
         MarketStats_PopularOutcome stats = ""
         /\ MarketStats_PopularPct stats = 0%float))
  /\ (let stats := computeStatsFromPrices market in
      exists max,
        MarketStats_PopularPct stats = (max * 100)%float
        /\ firstMax
             ((fun s => (OutcomeStats_Outcome s, priceOf (OutcomeStats_Price s)))
                <$> MarketStats_OutcomeStats stats)
             (MarketStats_PopularOutcome stats) max
        /\ (forall s, s ∈ MarketStats_OutcomeStats stats ->
              OutcomeStats_Percentage s = (priceOf (OutcomeStats_Price s) * 100)%float)
        /\ ((forall s, s ∈ MarketStats_OutcomeStats stats ->
               (OutcomeStats_Percentage s =? 0)%float = true) ->
            MarketStats_PopularOutcome stats = ""
            /\ MarketStats_PopularPct stats = 0%float))
  /\ (Market_Outcomes market = ["A"; "B"; "C"] ->
      Market_OutcomeTokens market = ["0.2"; "0.2"; "0.2"] ->
      Sscanf_f "0.2" = Some (2 / 10)%float ->
      MarketStats_PopularOutcome (computeStatsFromPrices market) = "A").
Proof.
  split; [|split].
  - intros outcomeUsers totalUsers stats.
    pose proof (ledgerStats_keys market outcomeUsers totalUsers) as Hkeys.
    cbv zeta in Hkeys. fold stats in Hkeys.
    split; [exact Hkeys|]. intros Hzero.
    destruct Hkeys as [(Hp & Hm & _)|(j & Hj & Hpos & _)]; [done|].
    exfalso. rewrite list_lookup_fmap in Hj.
    destruct (MarketStats_OutcomeStats stats !! j) as [s|] eqn:Hs; [|done].
    assert (Hpct : OutcomeStats_Percentage s = MarketStats_PopularPct stats)
      by (by injection Hj).
    apply list_elem_of_lookup_2, Hzero, eqb_zero_not_pos in Hs.
    rewrite <- Hpct in Hpos. congruence.
  - intros stats.
    destruct (computeStatsFromPrices_keys market) as [Hpct Hkeys].
    fold stats in Hpct, Hkeys.
    set (max := (scanMax _ _ _).1) in *.
    exists max. split; [exact Hpct|]. split; [exact Hkeys|].
    assert (Hentries : forall s, s ∈ MarketStats_OutcomeStats stats ->
              OutcomeStats_Percentage s = (priceOf (OutcomeStats_Price s) * 100)%float).
    { intros s Hs. unfold stats in Hs. rewrite computeStatsFromPrices_entries in Hs.
      apply elem_of_lookup_imap in Hs as (i & name & -> & _). reflexivity. }
    split; [exact Hentries|]. intros Hzero.
    destruct Hkeys as [(Hp & Hm & _)|(j & Hj & Hpos & _)].
    + split; [done|]. rewrite Hpct, Hm. reflexivity.
    + exfalso. rewrite list_lookup_fmap in Hj.
      destruct (MarketStats_OutcomeStats stats !! j) as [s|] eqn:Hs; [|done].
      assert (Hprice : priceOf (OutcomeStats_Price s) = max) by (by injection Hj).
      apply list_elem_of_lookup_2 in Hs. pose proof (Hzero s Hs) as Hz.
      rewrite (Hentries s Hs), Hprice in Hz.
      apply eqb_zero_not_pos in Hz. apply mul_100_pos in Hpos. congruence.
  - intros Ho Ht H2. unfold computeStatsFromPrices.
    rewrite Ho, Ht. cbn -[PrimFloat.mul PrimFloat.ltb PrimFloat.div].
    rewrite !H2. vm_compute. done.
Qed.

(** C10. In ledger mode the users on an outcome are among all users, so
    for every entry the user count lies between 0 and the total of users,
    and the percentage, the total of users being an [int] and so below
    [2^63], lies between 0 and 100. The user counts can add up to more than
    the total, and the percentages to more than 100: one user with positions
    on outcomes 0 and 1 counts for both, which gives the counts 1 and 1 with
    a total of 1, and the percentages 100 and 100. *)
Theorem ledger_counts_bounded :
  (forall (up : Upstream) (market : Market) (run : Run Upstream)
          (positions : list PositionData),
     GetMarketPositions up (Market_ConditionID market) = Some run ->
     Run_result run = inr positions ->
     usersOf positions <> ∅ ->
     Z.of_nat (size (usersOf positions)) < 2 ^ 63 ->
     exists stats,
       ComputeMarketStats up market = Some (stats, None)
       /\ (forall k, usersOn k positions ⊆ usersOf positions)
       /\ forall s, s ∈ MarketStats_OutcomeStats stats ->
            0 <= OutcomeStats_UserCount s <= MarketStats_TotalUsers stats
            /\ (0 <=? OutcomeStats_Percentage s)%float = true
            /\ (OutcomeStats_Percentage s <=? 100)%float = true)
  /\ (let positions := [position "u" "0"; position "u" "1"] in
      exists stats,
        @ComputeMarketStats _ scripted decimalScan [Positions positions]
          (market ["Yes"; "No"] ["0.5"; "0.5"]) = Some (stats, None)
        /\ MarketStats_TotalUsers stats = 1
        /\ OutcomeStats_UserCount <$> MarketStats_OutcomeStats stats = [1; 1]
        /\ MarketStats_TotalUsers stats
           < foldr Z.add 0 (OutcomeStats_UserCount <$> MarketStats_OutcomeStats stats)
        /\ OutcomeStats_Percentage <$> MarketStats_OutcomeStats stats
           = [100%float; 100%float]
        /\ foldr PrimFloat.add 0%float
             (OutcomeStats_Percentage <$> MarketStats_OutcomeStats stats) = 200%float).
Proof.
  split.
  - intros up market run positions Hrun Hres Hne Hsmall.
    unfold ComputeMarketStats. rewrite Hrun, Hres, statsOf_cases, decide_False by done.
    eexists. split; [reflexivity|]. split; [intros k; apply usersOn_subseteq|].
    intros s Hs. rewrite ledgerStats_entries in Hs.
    apply elem_of_lookup_imap in Hs as (i & name & -> & _).
    unfold ledgerEntry.
    cbn [OutcomeStats_UserCount OutcomeStats_Percentage ledgerStats MarketStats_TotalUsers].
    rewrite groupPositions_size.
    pose proof (subseteq_size _ _ (usersOn_subseteq (Sprint (Z.of_nat i)) positions)) as Hle.
    pose proof (size_usersOf_pos positions Hne) as Hpos.
    split; [lia|].
    destruct (Z.ltb_spec 0 (Z.of_nat (size (usersOf positions)))); [|lia].
    apply percentage_bounds; lia.
  - eexists. split; [reflexivity|]. vm_compute. repeat split; reflexivity.
Qed.

End StatsClaims.

(** C4. The price loop does not select the popular outcome as the claim
    says. Outcomes A and B with prices 0.7 and 0.7000000000000001, scanned to
    the nearest floats, have the same percentage 70. A scan of the
    percentages in index order that replaces the running maximum only by a
    strictly greater one keeps A, the first outcome that reaches 70, and so
    does the ledger loop on equal percentages. [computeStatsFromPrices]
    compares the prices before they are multiplied by 100; the second price
    is the greater, and B is reported as the popular outcome. *)
Lemma price_tie_later_outcome_wins :
  let stats :=
    @computeStatsFromPrices decimalScan
      (market ["A"; "B"] ["0.7"; "0.7000000000000001"]) in
  OutcomeStats_Percentage <$> MarketStats_OutcomeStats stats = [70%float; 70%float]
  /\ scanMax ((fun s => (OutcomeStats_Outcome s, OutcomeStats_Percentage s))
                <$> MarketStats_OutcomeStats stats) 0%float "" = (70%float, "A")
  /\ MarketStats_PopularOutcome stats = "B"
  /\ MarketStats_PopularPct stats = 70%float.
Proof. vm_compute. repeat split; reflexivity. Qed.

Lemma ledger_mode_entries_witness :
  let positions :=
    [position "a" "0"; position "b" "0"; position "a" "1"; position "c" "Yes"] in
  exists stats,
    @ComputeMarketStats _ scripted decimalScan [Positions positions]
      (market ["Yes"; "No"; "Maybe"] ["0.6"; "0.4"]) = Some (stats, None)
    /\ MarketStats_TotalUsers stats = 3
    /\ OutcomeStats_UserCount <$> MarketStats_OutcomeStats stats = [2; 1; 0]
    /\ OutcomeStats_Price <$> MarketStats_OutcomeStats stats = ["0.6"; "0.4"; ""].
Proof.
  intros positions.
  edestruct (@ledger_mode_entries (list PageReply) scripted decimalScan
               [Positions positions] (market ["Yes"; "No"; "Maybe"] ["0.6"; "0.4"]))
    as (stats & Hstats & _); [reflexivity|reflexivity| |].
  - intros E. apply (f_equal size) in E. vm_compute in E. discriminate.
  - exists stats. split; [exact Hstats|].
    vm_compute in Hstats. injection Hstats as <-. repeat split; reflexivity.
Defined.

Lemma price_mode_entries_witness :
  let stats := @computeStatsFromPrices decimalScan (market ["Yes"; "No"] ["0.7"; "0.3"]) in
  OutcomeStats_Percentage <$> MarketStats_OutcomeStats stats = [70%float; 30%float]
  /\ MarketStats_PopularOutcome stats = "Yes"
  /\ MarketStats_PopularPct stats = 70%float.
Proof.
  apply (@price_mode_entries decimalScan (market ["Yes"; "No"] ["0.7"; "0.3"]));
    reflexivity.
Defined.

Lemma popular_outcome_selection_witness :
  MarketStats_PopularOutcome
    (@computeStatsFromPrices decimalScan
       (market ["A"; "B"; "C"] ["0.2"; "0.2"; "0.2"])) = "A".
Proof.
  apply (@popular_outcome_selection decimalScan
           (market ["A"; "B"; "C"] ["0.2"; "0.2"; "0.2"])); reflexivity.
Defined.

Lemma ledger_counts_bounded_witness :
  let positions := [position "a" "0"; position "b" "0"; position "a" "1"] in
  exists stats,
    @ComputeMarketStats _ scripted decimalScan [Positions positions]
      (market ["Yes"; "No"] ["0.6"; "0.4"]) = Some (stats, None)
    /\ forall s, s ∈ MarketStats_OutcomeStats stats ->
         0 <= OutcomeStats_UserCount s <= MarketStats_TotalUsers stats
         /\ (0 <=? OutcomeStats_Percentage s)%float = true
         /\ (OutcomeStats_Percentage s <=? 100)%float = true.
Proof.
  intros positions.
  destruct (@ledger_counts_bounded (list PageReply) scripted decimalScan) as [Hbound _].
  edestruct (Hbound [Positions positions] (market ["Yes"; "No"] ["0.6"; "0.4"]))
    as (stats & Hstats & _ & Hall); [reflexivity|reflexivity| | |].
  - intros E. apply (f_equal size) in E. vm_compute in E. discriminate.
  - vm_compute. reflexivity.
  - exists stats. split; [exact Hstats|exact Hall].
Defined.

(** ** The fetches: failures, the cut of a search, what a list holds *)

Section FetchFacts.

Context `{Json, TimeParser, time.Calendar}.

Lemma elem_of_kept now m ms : m ∈ kept now ms <-> m ∈ ms /\ expired now m = false.
Proof.
  unfold kept. by rewrite !list_elem_of_In, filter_In, negb_true_iff.
Qed.

Lemma elem_of_normalized m gms :
  m ∈ normalized gms <->
  exists gm, gm ∈ gms /\ GammaMarket_Active gm = true /\ GammaMarket_Closed gm = false
             /\ m = convertGammaMarket gm.
Proof.
  unfold normalized. rewrite list_elem_of_In, in_map_iff. split.
  - intros (gm & <- & Hin). apply filter_In in Hin as [Hin Hflags].
    apply andb_true_iff in Hflags as [Ha Hc]. apply negb_true_iff in Hc.
    exists gm. by rewrite list_elem_of_In.
  - intros (gm & Hin & Ha & Hc & ->). exists gm. split; [done|].
    apply filter_In. rewrite <- list_elem_of_In. by rewrite Ha, Hc.
Qed.

Lemma searchLoop_negative now limit events markets :
  limit < 0 ->
  searchLoop now limit events markets =
  match events with
  | [] => Returned markets
  | _ :: _ => Panicked
  end.
Proof.
  intros Hneg. destruct events as [|event events]; [done|]. simpl.
  destruct (Z.leb_spec limit (Z.of_nat (length (searchEvent now (GammaEvent_Markets event) markets))));
    [|lia].
  by destruct (Z.ltb_spec limit 0); [|lia].
Qed.

Lemma SearchMarkets_cases reply now query limit :
  0 <= limit ->
  (exists e, SearchMarkets reply now query limit = Failed e)
  \/ exists body searchResp,
       reply = GetReplied StatusOK (Some body)
       /\ Unmarshal_SearchResponse body = Some searchResp
       /\ SearchMarkets reply now query limit =
          Returned (take (Z.to_nat limit)
                      (kept now (normalized (marketsOf (SearchResponse_Events searchResp))))).
Proof.
  intros Hl. unfold SearchMarkets, withBody.
  destruct reply as [|status [body|]]; [left; by eexists| |].
  - destruct (decide (status = StatusOK)) as [->|]; [|left; by eexists].
    destruct (Unmarshal_SearchResponse body) as [searchResp|] eqn:Eb; [|left; by eexists].
    right. exists body, searchResp. split; [done|]. split; [done|].
    rewrite searchLoop_take; [done|done|by left].
  - destruct (decide (status = StatusOK)); left; by eexists.
Qed.

Lemma search_result_active now limit gms m :
  m ∈ take limit (kept now (normalized gms)) ->
  Market_Active m = true /\ expired now m = false.
Proof.
  intros Hm. apply elem_of_take in Hm as (i & Hm & _).
  apply list_elem_of_lookup_2, elem_of_kept in Hm as [Hm Hexp].
  apply elem_of_normalized in Hm as (gm & Hin & Ha & Hc & ->).
  split; [simpl; by rewrite Ha, Hc|done].
Qed.

(** X1. The three fetches fail alike before they decode: a transport
    failure is a fetch error; a status other than 200 is an API error with
    that status, whatever the body, readable or not; an unreadable body under
    status 200 is a read error. A body that does not decode is a parse error.
    A listing or a lookup returns exactly when the status is 200 and the body
    was read and decoded, and neither can panic. *)
Theorem fetch_failures (reply : HttpExchange) (now : time.Time) (limit offset : Z)
    (marketID query : string) :
  let listing := FetchMarkets reply now limit offset in
  let lookup := FetchMarketByID reply marketID in
  let search := SearchMarkets reply now query limit in
  (reply = GetFailed ->
   listing = Failed ErrFetch /\ lookup = Failed ErrFetch /\ search = Failed ErrFetch)
  /\ (forall status body, reply = GetReplied status body -> status <> StatusOK ->
        listing = Failed (ErrAPI status) /\ lookup = Failed (ErrAPI status)
        /\ search = Failed (ErrAPI status))
  /\ (reply = GetReplied StatusOK None ->
      listing = Failed ErrRead /\ lookup = Failed ErrRead /\ search = Failed ErrRead)
  /\ (forall body, reply = GetReplied StatusOK (Some body) ->
        (Unmarshal_GammaMarkets body = None -> listing = Failed ErrParse)
        /\ (Unmarshal_GammaMarket body = None -> lookup = Failed ErrParse)
        /\ (Unmarshal_SearchResponse body = None -> search = Failed ErrParse))
  /\ ((exists markets, listing = Returned markets) <->
      exists body gms, reply = GetReplied StatusOK (Some body)
                       /\ Unmarshal_GammaMarkets body = Some gms)
  /\ ((exists market, lookup = Returned market) <->
      exists body gm, reply = GetReplied StatusOK (Some body)
                      /\ Unmarshal_GammaMarket body = Some gm)
  /\ listing <> Panicked
  /\ lookup <> Panicked.
Proof.
  intros listing lookup search. subst listing lookup search.
  unfold FetchMarkets, FetchMarketByID, SearchMarkets, withBody.
  split; [by intros ->|].
  split; [intros status body -> Hs; rewrite !decide_False by done; by repeat split|].
  split; [by intros ->|].
  split.
  { intros body ->. rewrite !decide_True by done.
    repeat split; by intros ->. }
  split.
  { split.
    - intros [markets E]. destruct reply as [|status [body|]]; [done| |].
      + destruct (decide (status = StatusOK)) as [->|]; [|done].
        destruct (Unmarshal_GammaMarkets body) as [gms|] eqn:Eb; [|done]. by exists body, gms.
      + by destruct (decide (status = StatusOK)).
    - intros (body & gms & -> & Eb). rewrite decide_True, Eb by done. by eexists. }
  split.
  { split.
    - intros [market E]. destruct reply as [|status [body|]]; [done| |].
      + destruct (decide (status = StatusOK)) as [->|]; [|done].
        destruct (Unmarshal_GammaMarket body) as [gm|] eqn:Eb; [|done]. by exists body, gm.
      + by destruct (decide (status = StatusOK)).
    - intros (body & gm & -> & Eb). rewrite decide_True, Eb by done. by eexists. }
  split.
  - destruct reply as [|status [body|]]; [done| |].
    + destruct (decide _); [|done]. by destruct (Unmarshal_GammaMarkets body).
    + by destruct (decide _).
  - destruct reply as [|status [body|]]; [done| |].
    + destruct (decide _); [|done]. by destruct (Unmarshal_GammaMarket body).
    + by destruct (decide _).
Qed.

(** X2. A search panics exactly when its limit is negative and the decoded
    response holds at least one event. A search that returns never returns
    more markets than its limit, and none when the limit is 0 or negative. *)
Theorem SearchMarkets_limit (reply : HttpExchange) (now : time.Time) (query : string)
    (limit : Z) :
  (SearchMarkets reply now query limit = Panicked <->
   limit < 0
   /\ exists body searchResp,
        reply = GetReplied StatusOK (Some body)
        /\ Unmarshal_SearchResponse body = Some searchResp
        /\ SearchResponse_Events searchResp <> [])
  /\ (forall markets,
        SearchMarkets reply now query limit = Returned markets ->
        Z.of_nat (length markets) <= Z.max 0 limit).
Proof.
  unfold SearchMarkets, withBody.
  destruct reply as [|status [body|]].
  - split; [|done]. split; [done|]. by intros (_ & ? & ? & ? & _).
  - destruct (decide (status = StatusOK)) as [->|Hs].
    + destruct (Unmarshal_SearchResponse body) as [searchResp|] eqn:Eb.
      * destruct (Z.lt_ge_cases limit 0) as [Hneg|Hpos].
        -- rewrite searchLoop_negative by done.
           destruct (SearchResponse_Events searchResp) as [|event events] eqn:Ee.
           ++ split.
              ** split; [done|]. intros (_ & ? & ? & [= <-] & E' & Hne). congruence.
              ** intros markets [= <-]. simpl. lia.
           ++ split; [|done]. split; [|done]. intros _. split; [done|].
              exists body, searchResp. by rewrite Ee.
        -- rewrite searchLoop_take; [|done|by left]. split.
           ++ split; [done|]. intros [? _]. lia.
           ++ intros markets [= <-]. rewrite length_take. lia.
      * split; [|done]. split; [done|]. intros (_ & ? & ? & [= <-] & E' & _). congruence.
    + split; [|done]. split; [done|]. intros (_ & ? & ? & [= -> _] & _). done.
  - destruct (decide (status = StatusOK)); (split; [|done]);
      (split; [done|]); by intros (_ & ? & ? & ? & _).
Qed.

(** X3. Every market a search returns was converted from a record of the
    response that is flagged active and not closed, has its [Active] field
    set, and passes the expiry test. A listing returns every converted
    record that passes the expiry test, whatever its flags. *)
Theorem returned_markets (now : time.Time) (body : string) :
  (forall searchResp query limit markets,
     Unmarshal_SearchResponse body = Some searchResp ->
     SearchMarkets (GetReplied StatusOK (Some body)) now query limit = Returned markets ->
     forall m, m ∈ markets ->
       Market_Active m = true
       /\ expired now m = false
       /\ exists gm, gm ∈ marketsOf (SearchResponse_Events searchResp)
                     /\ GammaMarket_Active gm = true /\ GammaMarket_Closed gm = false
                     /\ m = convertGammaMarket gm)
  /\ (forall gms limit offset,
        Unmarshal_GammaMarkets body = Some gms ->
        exists markets,
          FetchMarkets (GetReplied StatusOK (Some body)) now limit offset = Returned markets
          /\ forall m, m ∈ markets <->
               expired now m = false /\ exists gm, gm ∈ gms /\ m = convertGammaMarket gm).
Proof.
  split.
  - intros searchResp query limit markets Eb Hret m Hm.
    unfold SearchMarkets, withBody in Hret. rewrite decide_True, Eb in Hret by done.
    destruct (Z.lt_ge_cases limit 0) as [Hneg|Hpos].
    + rewrite searchLoop_negative in Hret by done.
      destruct (SearchResponse_Events searchResp); [|done].
      injection Hret as <-. by apply elem_of_nil in Hm.
    + rewrite searchLoop_take in Hret; [|done|by left].
      injection Hret as <-. apply elem_of_take in Hm as (i & Hm & _).
      apply list_elem_of_lookup_2 in Hm.
      apply elem_of_kept in Hm as [Hm Hexp].
      apply elem_of_normalized in Hm as (gm & Hin & Ha & Hc & ->).
      split; [simpl; by rewrite Ha, Hc|]. split; [done|]. by exists gm.
  - intros gms limit offset Eb. unfold FetchMarkets, withBody.
    rewrite decide_True, Eb, fetchLoop_filter by done. eexists. split; [reflexivity|].
    intros m. simpl. fold (kept now (map convertGammaMarket gms)).
    rewrite elem_of_kept, list_elem_of_In, in_map_iff.
    setoid_rewrite <- list_elem_of_In. naive_solver.
Qed.

(** X4. A record whose end date is empty, or is matched by none of the
    three layouts, is returned by every listing that holds it, at any
    time: it has no end timestamp and never expires. *)
Theorem unparsed_end_date_kept (now : time.Time) (body : string)
    (gms : list GammaMarket) (gm : GammaMarket) (limit offset : Z) :
  Unmarshal_GammaMarkets body = Some gms ->
  gm ∈ gms ->
  GammaMarket_EndDateISO gm = ""
  \/ (forall layout, layout ∈ formats ->
        time_Parse layout (GammaMarket_EndDateISO gm) = None) ->
  Market_EndDate (convertGammaMarket gm) = time.zero
  /\ exists markets,
       FetchMarkets (GetReplied StatusOK (Some body)) now limit offset = Returned markets
       /\ convertGammaMarket gm ∈ markets.
Proof.
  intros Eb Hin Hdate.
  assert (Hzero : Market_EndDate (convertGammaMarket gm) = time.zero).
  { simpl. destruct (decide _) as [|Hne]; [done|].
    destruct Hdate as [?|Hnone]; [done|]. unfold formats in Hnone.
    rewrite !Hnone; [done|set_solver..]. }
  split; [done|]. unfold FetchMarkets, withBody.
  rewrite decide_True, Eb, fetchLoop_filter by done. eexists. split; [reflexivity|].
  simpl. fold (kept now (map convertGammaMarket gms)).
  apply elem_of_kept. split.
  - apply list_elem_of_In, in_map, list_elem_of_In, Hin.
  - unfold expired. rewrite Hzero. done.
Qed.

End FetchFacts.

Lemma unparsed_end_date_kept_witness :
  let gm := gammaMarket "2" "soon" true true in
  Market_EndDate (@convertGammaMarket listingJson cannedTime gm) = time.zero
  /\ exists markets,
       @FetchMarkets listingJson cannedTime time.UTC
         (GetReplied StatusOK (Some "listing")) (100 * time.Hour) 50 0 = Returned markets
       /\ @convertGammaMarket listingJson cannedTime gm ∈ markets.
Proof.
  apply (@unparsed_end_date_kept listingJson cannedTime time.UTC (100 * time.Hour)
           "listing" [gammaMarket "1" "" true false; gammaMarket "2" "soon" true true;
                      gammaMarket "3" "long ago" true false]).
  - reflexivity.
  - apply list_elem_of_further, list_elem_of_here.
  - right. intros layout _. reflexivity.
Defined.

(** ** The handlers *)

Section SearchHandlerFacts.

Context `{Encoder, Strconv, Json, TimeParser, time.Calendar}.

Lemma searchLimit_range (values : Values) : 0 < searchLimit values <= 50.
Proof.
  unfold searchLimit. destruct (decide _); [lia|].
  destruct (Atoi _) as [parsed|]; [|lia].
  destruct (Z.ltb_spec 0 parsed), (Z.leb_spec parsed 50); simpl; lia.
Qed.

(** X5. A search takes the limit 20 when the parameter is missing or empty,
    is not a number, or is a number that is 0, negative or above 50, and
    takes the number otherwise; so the limit it searches with lies in
    (0,50]. *)
Theorem searchLimit_defaults (values : Values) :
  let l := Get values "limit" in
  let limit := searchLimit values in
  (values !! "limit" = None -> limit = 20)
  /\ (l = "" -> limit = 20)
  /\ (Atoi l = None -> limit = 20)
  /\ (forall parsed, Atoi l = Some parsed -> parsed <= 0 \/ 50 < parsed -> limit = 20)
  /\ (forall parsed, l <> "" -> Atoi l = Some parsed -> 0 < parsed <= 50 ->
        limit = parsed)
  /\ 0 < limit <= 50.
Proof.
  intros l limit. subst l limit. unfold searchLimit.
  split; [intros Hq; by rewrite (Get_missing _ _ Hq)|].
  split; [intros ->; done|].
  split; [intros ->; by destruct (decide _)|].
  split.
  { intros parsed -> Hp. destruct (decide _); [done|].
    destruct (Z.ltb_spec 0 parsed), (Z.leb_spec parsed 50); simpl; lia. }
  split.
  { intros parsed Hne -> Hp. rewrite decide_False by done.
    destruct (Z.ltb_spec 0 parsed), (Z.leb_spec parsed 50); simpl; lia. }
  apply searchLimit_range.
Qed.

Lemma respond_body status body body' :
  Response_Body (Server.respond status body) = Some body' ->
  body' = body /\ Encodes body = true.
Proof.
  unfold Server.respond. cbn [Response_Body].
  destruct (Encodes body); [|done]. by intros [= <-].
Qed.

(** X6. The search handler always responds and never panics. Without a
    query text it answers with status 400, whatever the upstream would
    reply. With one it searches with a limit in (0,50]: when the search fails
    it answers with status 500 and the error, when the search returns it
    answers with status 200 and the markets found. The body of a response
    is that envelope when it encodes, and is empty when it does not, the
    handler ignoring the encoder's error. The markets in a body are at most
    as many as the limit, hence at most 50, and each is active and passes
    the expiry test. *)
Theorem handleSearchMarkets_responds (values : Values) (reply : HttpExchange)
    (now : time.Time) :
  let query := Get values "q" in
  let limit := searchLimit values in
  exists r,
    Server.handleSearchMarkets values reply now = Some r
    /\ (query = "" ->
        r = Server.respond StatusBadRequest (Server.failure QueryRequired))
    /\ (query <> "" ->
        match SearchMarkets reply now query limit with
        | Failed e =>
            r = Server.respond StatusInternalServerError
                  (Server.failure (FetchErrorText e))
        | Returned markets => r = Server.respond StatusOK (Server.success (Markets markets))
        | Panicked => False
        end)
    /\ (forall body markets,
          Response_Body r = Some body ->
          APIResponse_Data body = Markets markets ->
          Response_StatusCode r = StatusOK
          /\ SearchMarkets reply now query limit = Returned markets
          /\ Z.of_nat (length markets) <= limit <= 50
          /\ forall m, m ∈ markets -> Market_Active m = true /\ expired now m = false).
Proof.
  intros query limit. subst query limit. unfold Server.handleSearchMarkets.
  pose proof (searchLimit_range values) as Hrange.
  destruct (decide (Get values "q" = "")) as [Hq|Hq].
  { eexists. split; [reflexivity|]. split; [done|]. split; [done|].
    intros body markets Hb Hd. apply respond_body in Hb as [-> _]. done. }
  destruct (SearchMarkets_cases reply now (Get values "q") (searchLimit values))
    as [[e ->]|(body & searchResp & _ & _ & ->)]; [lia| |].
  - eexists. split; [reflexivity|]. split; [done|]. split; [done|].
    intros body markets Hb Hd. apply respond_body in Hb as [-> _]. done.
  - eexists. split; [reflexivity|]. split; [done|]. split; [done|].
    intros body' markets Hb Hd. apply respond_body in Hb as [-> _].
    injection Hd as <-. split; [done|]. split; [done|]. split.
    + rewrite length_take. lia.
    + intros m. apply search_result_active.
Qed.

End SearchHandlerFacts.

Section HandlerFacts.

Context `{Encoder, Strconv, Json, TimeParser, time.Calendar, Subgraph Upstream, Fmt}.

Lemma ComputeMarketStats_returns (up : Upstream) (market : Market) :
  exists stats, ComputeMarketStats up market = Some (stats, None).
Proof.
  destruct (positionsLoop_fuel up (Market_ConditionID market)) as [run Hrun].
  specialize (Hrun 11%nat (le_n _)).
  unfold ComputeMarketStats, GetMarketPositions. rewrite Hrun, statsOf_cases.
  by eexists.
Qed.



(** X7. The stats handler always responds. It answers with status 500
    exactly when the lookup of the market fails, and then with the error of
    the lookup. When the lookup returns it answers with status 200 and the
    stats of that market: the handler's branch for a failed computation of
    the stats is never taken. The body of a response is that envelope when
    it encodes, and is empty when it does not, so stats that do not encode
    leave status 200 with an empty body. *)
Theorem handleGetMarketStats_responds (reply : HttpExchange) (up : Upstream)
    (marketID : string) :
  exists r,
    Server.handleGetMarketStats reply up marketID = Some r
    /\ match FetchMarketByID reply marketID with
       | Failed e =>
           r = Server.respond StatusInternalServerError
                 (Server.failure (FetchErrorText e))
       | Returned market =>
           exists stats,
             ComputeMarketStats up market = Some (stats, None)
             /\ r = Server.respond StatusOK (Server.success (Stats stats))
             /\ (Encodes (Server.success (Stats stats)) = false ->
                 Response_StatusCode r = StatusOK /\ Response_Body r = None)
       | Panicked => False
       end
    /\ (forall body e,
          Response_Body r = Some body -> APIResponse_Error body <> LedgerErrorText e)
    /\ (Response_StatusCode r = StatusInternalServerError <->
        exists e, FetchMarketByID reply marketID = Failed e).
Proof.
  unfold Server.handleGetMarketStats.
  destruct (FetchMarketByID reply marketID) as [market|e|] eqn:Hone.
  - destruct (ComputeMarketStats_returns up market) as [stats ->].
    eexists. split; [reflexivity|]. split.
    { exists stats. split; [done|]. split; [done|].
      intros Henc. unfold Server.succeed, Server.respond. cbn. by rewrite Henc. }
    split.
    { intros body e Hb. apply respond_body in Hb as [-> _]. done. }
    split; [done|]. by intros [e ?].
  - eexists. split; [reflexivity|]. split; [done|]. split.
    { intros body e' Hb. apply respond_body in Hb as [-> _]. done. }
    split; [by exists e|done].
  - exfalso. unfold FetchMarketByID, withBody in Hone.
    destruct reply as [|status [body|]]; [done| |].
    + destruct (decide _); [|done]. by destruct (Unmarshal_GammaMarket body).
    + by destruct (decide _).
Qed.


End HandlerFacts.

(** ** The ledger fetch: what a run holds *)

Section LedgerFetchFacts.

Context `{Subgraph Upstream, Fmt}.

Lemma GetMarketPositions_run (up : Upstream) marketID :
  exists run,
    GetMarketPositions up marketID = Some run
    /\ (1 <= length (Run_log run) <= 11)%nat
    /\ (Run_log run).*1 = requestsFrom marketID 0 (length (Run_log run))
    /\ Forall fullPage (take (length (Run_log run) - 1) ((Run_log run).*2))
    /\ endsWith 0 (concat (pageOf <$> (Run_log run).*2)) (length (Run_log run))
         (last ((Run_log run).*2)) (Run_result run).
Proof.
  destruct (positionsLoop_run 11 up marketID 0 [] [])
    as (run & new & Hrun & Hlog & Hne & Hreq & _ & Hfulls & Hmax & Hend); [lia|lia|].
  simpl in Hlog. subst new. exists run. split; [exact Hrun|].
  split; [|done]. destruct (Run_log run); [done|]. simpl length in *. lia.
Qed.

Lemma pages_length (replies : list PageReply) (lastReply : PageReply) :
  last replies = Some lastReply ->
  Forall fullPage (take (length replies - 1) replies) ->
  (forall reply, reply ∈ replies -> (length (pageOf reply) <= 1000)%nat) ->
  Z.of_nat (length (concat (pageOf <$> replies))) =
  1000 * (Z.of_nat (length replies) - 1) + Z.of_nat (length (pageOf lastReply)).
Proof.
  intros Hlast Hfulls Hmost. apply last_Some in Hlast as [init ->].
  rewrite length_app in *. cbn [length] in *.
  replace (length init + 1 - 1)%nat with (length init) in Hfulls by lia.
  rewrite take_app_length in Hfulls.
  rewrite fmap_app, concat_app, length_app. simpl. rewrite app_nil_r.
  assert (E : Z.of_nat (length (concat (pageOf <$> init))) = 1000 * Z.of_nat (length init)).
  { assert (Hinit : forall reply, reply ∈ init -> (length (pageOf reply) <= 1000)%nat)
      by (intros reply Hin; apply Hmost; set_solver).
    clear Hmost. revert Hfulls Hinit.
    induction init as [|reply init IH]; intros Hfulls Hinit; [done|].
    apply Forall_cons in Hfulls as [(positions & -> & Hfull) Hfulls].
    assert (Hle : (length (pageOf (Positions positions)) <= 1000)%nat)
      by (apply Hinit; set_solver).
    rewrite fmap_cons. cbn [concat pageOf length] in *. rewrite length_app.
    rewrite Nat2Z.inj_add, IH; [lia|done|]. intros reply Hin. apply Hinit. set_solver. }
  lia.
Qed.

(** X9. A fetch is all or nothing. Every request of a stats computation
    asks for the market's condition id. A reply that is an error is the last
    one of the run and gives the price-mode stats, whatever pages came before
    it. Stats that count users come from a run all of whose replies were
    pages, and are computed from all of them, in order. *)
Theorem positions_all_or_nothing (up : Upstream) (market : Market) :
  exists run stats,
    GetMarketPositions up (Market_ConditionID market) = Some run
    /\ ComputeMarketStats up market = Some (stats, None)
    /\ (forall request, request ∈ (Run_log run).*1 ->
          Request_marketId request = Market_ConditionID market)
    /\ (forall (k : nat) reply,
          (Run_log run).*2 !! k = Some reply ->
          reply = QueryFailed \/ reply = PayloadUnparsed ->
          S k = length (Run_log run) /\ stats = computeStatsFromPrices market)
    /\ (MarketStats_TotalUsers stats <> 0 ->
        Forall (fun reply => exists positions, reply = Positions positions)
          ((Run_log run).*2)
        /\ Run_result run = inr (concat (pageOf <$> (Run_log run).*2))
        /\ stats = (statsOf market (inr (concat (pageOf <$> (Run_log run).*2)))).1).
Proof.
  destruct (GetMarketPositions_run up (Market_ConditionID market))
    as (run & Hrun & Hlen & Hreq & Hfulls & Hend).
  exists run. eexists. split; [exact Hrun|].
  unfold ComputeMarketStats. rewrite Hrun. rewrite (statsOf_cases market (Run_result run)).
  split; [reflexivity|].
  set (replies := (Run_log run).*2) in *.
  assert (Hreplies : length replies = length (Run_log run)) by apply length_fmap.
  assert (Hpages : forall (k : nat) reply, replies !! k = Some reply ->
            (S k < length (Run_log run))%nat -> exists positions, reply = Positions positions).
  { intros k reply Hk Hlt. rewrite Forall_lookup in Hfulls.
    destruct (Hfulls k reply) as (positions & -> & _); [|by eexists].
    rewrite lookup_take_lt by lia. exact Hk. }
  assert (Hlast : forall (k : nat) reply, replies !! k = Some reply ->
            S k = length (Run_log run) -> last replies = Some reply).
  { intros k reply Hk Hlt. rewrite last_lookup, Hreplies, <- Hlt. exact Hk. }
  split.
  { intros request Hin. apply list_elem_of_lookup in Hin as [i Hi].
    assert (Hilen : (i < length (Run_log run))%nat).
    { apply lookup_lt_Some in Hi. by rewrite length_fmap in Hi. }
    rewrite Hreq, requestsFrom_lookup in Hi by done. by injection Hi as <-. }
  split.
  { intros k reply Hk Herr.
    assert (Hklen : (k < length (Run_log run))%nat).
    { apply lookup_lt_Some in Hk. lia. }
    assert (HS : S k = length (Run_log run)).
    { destruct (decide (S k = length (Run_log run))) as [|Hne]; [done|].
      destruct (Hpages k reply Hk) as [positions ->]; [lia|]. by destruct Herr. }
    split; [done|]. rewrite (Hlast k reply Hk HS) in Hend.
    destruct Herr as [-> | ->]; simpl in Hend; by rewrite Hend. }
  intros Htotal.
  destruct (last replies) as [[| |positions]|] eqn:El; simpl in Hend; [| | |done].
  - rewrite Hend in Htotal. done.
  - rewrite Hend in Htotal. done.
  - destruct Hend as [Hres _]. split; [|split; [done|]].
    + apply Forall_lookup. intros k reply Hk.
      assert (Hklen : (k < length (Run_log run))%nat).
      { apply lookup_lt_Some in Hk. lia. }
      destruct (decide (S k = length (Run_log run))) as [HS|Hne].
      * pose proof (Hlast k reply Hk HS) as E. injection E as <-. by eexists.
      * apply (Hpages k reply Hk). lia.
    + rewrite Hres. by rewrite statsOf_cases.
Qed.

(** X10. When no reply of a run holds more than the 1000 records asked
    for, a fetch that returns holds 1000 records for every request but the
    last and the records of the last page, and so at most 11000 records. *)
Theorem GetMarketPositions_bounded (up : Upstream) (marketID : string)
    (run : Run Upstream) (positions : list PositionData) :
  GetMarketPositions up marketID = Some run ->
  Run_result run = inr positions ->
  (forall reply, reply ∈ (Run_log run).*2 -> (length (pageOf reply) <= 1000)%nat) ->
  exists lastPage,
    last ((Run_log run).*2) = Some (Positions lastPage)
    /\ positions = concat (pageOf <$> (Run_log run).*2)
    /\ Z.of_nat (length positions) =
       1000 * (Z.of_nat (length (Run_log run)) - 1) + Z.of_nat (length lastPage)
    /\ Z.of_nat (length positions) <= 11000.
Proof.
  intros Hrun Hres Hmost.
  destruct (GetMarketPositions_run up marketID)
    as (run' & Hrun' & Hlen & _ & Hfulls & Hend).
  rewrite Hrun in Hrun'. injection Hrun' as <-.
  set (replies := (Run_log run).*2) in *.
  assert (Hreplies : length replies = length (Run_log run)) by apply length_fmap.
  rewrite <- Hreplies in Hfulls.
  destruct (last replies) as [[| |lastPage]|] eqn:El; simpl in Hend; [| | |done].
  - rewrite Hres in Hend. done.
  - rewrite Hres in Hend. done.
  - destruct Hend as [Hall _]. rewrite Hres in Hall. injection Hall as ->.
    exists lastPage. split; [done|]. split; [done|].
    pose proof (pages_length replies _ El Hfulls Hmost) as E. cbn [pageOf] in E.
    assert (Hlast : (length lastPage <= 1000)%nat).
    { apply (Hmost (Positions lastPage)). by apply last_Some_elem_of. }
    rewrite Hreplies in E. split; [exact E|]. lia.
Qed.

End LedgerFetchFacts.

Lemma GetMarketPositions_bounded_witness :
  let full := Positions (replicate 1000 (position "u" "0")) in
  let short := Positions [position "v" "1"] in
  exists run lastPage,
    @GetMarketPositions _ scripted [full; full; short; full] "0xc" = Some run
    /\ last ((Run_log run).*2) = Some (Positions lastPage)
    /\ Z.of_nat (length (concat (pageOf <$> (Run_log run).*2))) =
       1000 * (Z.of_nat (length (Run_log run)) - 1) + Z.of_nat (length lastPage).
Proof.
  intros full short.
  destruct (@GetMarketPositions _ scripted [full; full; short; full] "0xc")
    as [run|] eqn:Hrun; [|discriminate].
  assert (Hlog : (Run_log run).*2 = [full; full; short]).
  { vm_compute in Hrun. injection Hrun as <-. reflexivity. }
  assert (Hres : Run_result run = inr (concat (pageOf <$> (Run_log run).*2))).
  { vm_compute in Hrun. injection Hrun as <-. reflexivity. }
  destruct (@GetMarketPositions_bounded _ scripted [full; full; short; full] "0xc" run
              _ Hrun Hres) as (lastPage & Hlast & _ & Hlen & _).
  - rewrite Hlog. intros reply Hin.
    repeat (apply elem_of_cons in Hin as [->|Hin];
            [cbn [pageOf full short]; rewrite ?length_replicate; simpl; lia|]).
    by apply elem_of_nil in Hin.
  - exists run, lastPage. split; [reflexivity|]. split; [exact Hlast|exact Hlen].
Defined.

(** The loop against an endpoint that serves [data], from request [k] on. *)
Lemma positionsLoop_serving (data : list PositionData) marketID fuel (k : nat) log :
  (k <= 10)%nat -> (10 - k < fuel)%nat -> (1000 * k <= length data)%nat ->
  exists run,
    @positionsLoop unit (serving data) fuel tt marketID 1000 (1000 * Z.of_nat k)
      (take (1000 * k) data) log = Some run
    /\ Run_result run = inr (take (Z.to_nat 11000) data)
    /\ Z.of_nat (length (Run_log run)) =
       Z.of_nat (length log)
       + Z.min (11 - Z.of_nat k) (Z.of_nat (length data) / 1000 + 1 - Z.of_nat k).
Proof.
  revert k log. induction fuel as [|fuel IH]; intros k log Hk Hfuel Hdata; [lia|].
  cbn [positionsLoop]. unfold Query, serving. cbn [Request_first Request_skip].
  replace (Z.to_nat (1000 * Z.of_nat k)) with (1000 * k)%nat by lia.
  set (page := take (Z.to_nat 1000) (drop (1000 * k) data)).
  assert (Hpage : Z.of_nat (length page) = Z.min 1000 (Z.of_nat (length data) - 1000 * Z.of_nat k)).
  { unfold page. rewrite length_take, length_drop. lia. }
  assert (Hall : take (1000 * k) data ++ page = take (1000 * S k) data).
  { unfold page. rewrite take_take_drop. f_equal. lia. }
  rewrite Hall.
  destruct (Z.ltb_spec (Z.of_nat (length page)) 1000) as [Hshort|Hfull].
  - eexists. split; [reflexivity|]. cbn [Run_result Run_log].
    split.
    + f_equal. rewrite !take_ge; [done|lia..].
    + rewrite length_app. cbn [length].
      assert (E : Z.of_nat (length data) / 1000 = Z.of_nat k).
      { symmetry.
        apply Z.div_unique with (r := Z.of_nat (length data) - 1000 * Z.of_nat k); lia. }
      rewrite E. lia.
  - destruct (Z.ltb_spec 10000 (1000 * Z.of_nat k + 1000)) as [Hceil|Hnext].
    + eexists. split; [reflexivity|]. cbn [Run_result Run_log].
      split.
      * do 2 f_equal. lia.
      * rewrite length_app. cbn [length].
        assert (E : 10 <= Z.of_nat (length data) / 1000)
          by (apply Z.div_le_lower_bound; lia).
        lia.
    + destruct (IH (S k) (log ++ [({| Request_marketId := marketID; Request_first := 1000;
                                     Request_skip := 1000 * Z.of_nat k |},
                                   Positions page)]))
        as (run & Hrun & Hres & Hlen); [lia|lia|lia|].
      exists run. split.
      * rewrite <- Hrun. f_equal. lia.
      * split; [exact Hres|]. rewrite Hlen, length_app. cbn [length]. lia.
Qed.

(** X11. Against an endpoint that holds a list of records and serves each
    request the 1000 records from its offset on, the fetch returns the first
    11000 records of the list, in order, so the whole list when it is
    shorter; it makes one request more than the list has full thousands, and
    never more than 11. *)
Theorem GetMarketPositions_serving (data : list PositionData) (marketID : string) :
  exists run,
    @GetMarketPositions unit (serving data) tt marketID = Some run
    /\ Run_result run = inr (take (Z.to_nat 11000) data)
    /\ (Z.of_nat (length data) <= 11000 -> Run_result run = inr data)
    /\ Z.of_nat (length (Run_log run)) = Z.min 11 (Z.of_nat (length data) / 1000 + 1).
Proof.
  destruct (positionsLoop_serving data marketID 11 0 []) as (run & Hrun & Hres & Hlen);
    [lia..|].
  replace (1000 * Z.of_nat 0) with 0 in Hrun by lia.
  rewrite Nat.mul_0_r, take_0 in Hrun.
  exists run. split; [unfold GetMarketPositions; exact Hrun|]. split; [exact Hres|].
  split; [|rewrite Hlen, length_nil; lia].
  intros Hshort. rewrite Hres, take_ge; [done|lia].
Qed.

(** ** The statistics: what they depend on, and their range *)

Lemma zero_share t :
  0 < t < 2 ^ 63 -> (float64 0 / float64 t * 100)%float = 0%float.
Proof.
  intros Ht. apply Prim2SF_inj. unfold float64.
  rewrite mul_spec, div_spec, Prim2SF_100, Prim2SF_0. unfold SF64mul, SF64div.
  rewrite !float64_spec by lia.
  destruct (binary_normalize_int t Ht) as (mt & et & -> & _). reflexivity.
Qed.

Lemma mul_100_bounds (x : float) :
  (0 <=? x)%float = true -> (x <=? 1)%float = true ->
  (0 <=? x * 100)%float = true /\ (x * 100 <=? 100)%float = true.
Proof.
  rewrite !leb_spec, mul_spec, Prim2SF_100, Prim2SF_0. unfold SF64mul.
  pose proof (Prim2SF_valid x) as Hv.
  change (Prim2SF 1) with (S754_finite false 4503599627370496 (-52)).
  destruct (Prim2SF x) as [[|]|[|]| |[|] m e]; intros Hge Hle;
    try discriminate Hge; try discriminate Hle;
    [split; reflexivity|split; reflexivity|].
  apply SFmul_100_le; [exact Hv|].
  unfold SFleb, SFcompare in Hle.
  destruct (Z.compare_spec e (-52)) as [->|Hlt|Hgt]; [|by left|discriminate Hle].
  right. split; [reflexivity|].
  change (Pos.compare_cont Eq) with Pos.compare in Hle.
  change (2 ^ 52) with 4503599627370496.
  destruct (Pos.compare_spec m 4503599627370496) as [Hm|Hm|Hm];
    [|apply Pos2Z.pos_le_pos, Pos.lt_le_incl, Hm|discriminate Hle].
  rewrite Hm. apply Z.le_refl.
Qed.

Section StatsDependence.

Context `{Subgraph Upstream, Fmt}.

Lemma elem_of_holdings k user positions :
  (k, user) ∈ holdings positions <-> user ∈ usersOn k positions.
Proof.
  unfold holdings. rewrite elem_of_list_to_set, list_elem_of_fmap, elem_of_usersOn.
  naive_solver.
Qed.

Lemma usersOf_holdings user positions :
  user ∈ usersOf positions <-> exists k, (k, user) ∈ holdings positions.
Proof.
  setoid_rewrite elem_of_holdings. rewrite elem_of_usersOf.
  setoid_rewrite elem_of_usersOn. naive_solver.
Qed.

Lemma positionsOn_nil k positions :
  positionsOn k positions = [] <-> usersOn k positions = ∅.
Proof.
  split.
  - unfold usersOn. by intros ->.
  - intros Hempty. destruct (positionsOn k positions) as [|pos rest] eqn:E; [done|].
    exfalso. assert (Hin : PositionData_User_ID pos ∈ usersOn k positions).
    { unfold usersOn. rewrite E, usersOf_cons. set_solver. }
    rewrite Hempty in Hin. set_solver.
Qed.

Lemma groupPositions_holdings positions positions' :
  holdings positions = holdings positions' ->
  groupPositions positions = groupPositions positions'.
Proof.
  intros E.
  assert (Hon : forall k, usersOn k positions = usersOn k positions').
  { intros k. apply set_eq. intros user. by rewrite <- !elem_of_holdings, E. }
  assert (Hof : usersOf positions = usersOf positions').
  { apply set_eq. intros user. rewrite !usersOf_holdings. by rewrite E. }
  destruct (groupPositions_spec positions) as [E2 E1].
  destruct (groupPositions_spec positions') as [E2' E1'].
  destruct (groupPositions positions) as [g t], (groupPositions positions') as [g' t'].
  simpl in *. f_equal; [|congruence].
  apply map_eq. intros k. rewrite E1, E1', Hon.
  destruct (decide (positionsOn k positions = [])) as [Hn|Hn],
           (decide (positionsOn k positions' = [])) as [Hn'|Hn']; try done.
  - exfalso. apply Hn'. apply positionsOn_nil. rewrite <- Hon. by apply positionsOn_nil.
  - exfalso. apply Hn. apply positionsOn_nil. rewrite Hon. by apply positionsOn_nil.
Qed.

Lemma ComputeMarketStats_fetched (up : Upstream) market run :
  GetMarketPositions up (Market_ConditionID market) = Some run ->
  ComputeMarketStats up market = Some (statsOf market (Run_result run)).
Proof. intros Hrun. unfold ComputeMarketStats. by rewrite Hrun. Qed.

(** X12. The stats depend on the fetched positions only through the pairs
    of outcome label and user that occur in them: two fetches whose
    positions give the same pairs give the same stats. Lists with the same
    records give the same pairs, so the order of the records and their
    repetition have no effect, and neither have the record ids, the market
    ids and the quantities bought and sold. *)
Theorem stats_depend_on_holdings (up up' : Upstream) (market : Market)
    (run run' : Run Upstream) (positions positions' : list PositionData) :
  GetMarketPositions up (Market_ConditionID market) = Some run ->
  Run_result run = inr positions ->
  GetMarketPositions up' (Market_ConditionID market) = Some run' ->
  Run_result run' = inr positions' ->
  (forall outcome user,
     (exists pos, pos ∈ positions /\ PositionData_Outcome pos = outcome
                  /\ PositionData_User_ID pos = user)
     <-> (exists pos, pos ∈ positions' /\ PositionData_Outcome pos = outcome
                      /\ PositionData_User_ID pos = user)) ->
  ComputeMarketStats up market = ComputeMarketStats up' market.
Proof.
  intros Hrun Hres Hrun' Hres' Hsame.
  rewrite (ComputeMarketStats_fetched up market run Hrun).
  rewrite (ComputeMarketStats_fetched up' market run' Hrun').
  rewrite Hres, Hres'. f_equal.
  assert (E : holdings positions = holdings positions').
  { apply set_eq. intros [k user]. rewrite !elem_of_holdings, !elem_of_usersOn. apply Hsame. }
  unfold statsOf. by rewrite (groupPositions_holdings _ _ E).
Qed.

(** X13. Positions whose outcome labels are not the decimal index of any
    outcome of the market are counted in the total of users and in no entry:
    when no position carries the index of an outcome as its label, every
    entry has user count 0 and percentage 0, and the popular outcome is
    empty with percentage 0, although the total of users is not 0. *)
Theorem unmatched_labels_count_nowhere (up : Upstream) (market : Market)
    (run : Run Upstream) (positions : list PositionData) :
  GetMarketPositions up (Market_ConditionID market) = Some run ->
  Run_result run = inr positions ->
  usersOf positions <> ∅ ->
  Z.of_nat (size (usersOf positions)) < 2 ^ 63 ->
  (forall (i : nat) pos,
     (i < length (Market_Outcomes market))%nat -> pos ∈ positions ->
     PositionData_Outcome pos <> Sprint (Z.of_nat i)) ->
  exists stats,
    ComputeMarketStats up market = Some (stats, None)
    /\ MarketStats_TotalUsers stats = Z.of_nat (size (usersOf positions))
    /\ 0 < MarketStats_TotalUsers stats
    /\ length (MarketStats_OutcomeStats stats) = length (Market_Outcomes market)
    /\ (forall s, s ∈ MarketStats_OutcomeStats stats ->
          OutcomeStats_UserCount s = 0 /\ OutcomeStats_Percentage s = 0%float)
    /\ MarketStats_PopularOutcome stats = ""
    /\ MarketStats_PopularPct stats = 0%float.
Proof.
  intros Hrun Hres Hne Hsmall Hlabels.
  rewrite (ComputeMarketStats_fetched up market run Hrun), Hres.
  rewrite statsOf_cases, decide_False by done. eexists. split; [reflexivity|].
  pose proof (size_usersOf_pos positions Hne) as Hpos.
  split; [done|]. split; [done|].
  set (stats := ledgerStats _ _ _).
  assert (Hentries : forall s, s ∈ MarketStats_OutcomeStats stats ->
            OutcomeStats_UserCount s = 0 /\ OutcomeStats_Percentage s = 0%float).
  { intros s Hs. unfold stats in Hs. rewrite ledgerStats_entries in Hs.
    apply elem_of_lookup_imap in Hs as (i & name & -> & Hi).
    unfold ledgerEntry. cbn [OutcomeStats_UserCount OutcomeStats_Percentage].
    rewrite groupPositions_size.
    assert (E : usersOn (Sprint (Z.of_nat i)) positions = ∅).
    { apply set_eq. intros user. rewrite elem_of_usersOn. split; [|set_solver].
      intros (pos & Hin & Hout & _). exfalso.
      apply (Hlabels i pos); [by eapply lookup_lt_Some|done|done]. }
    rewrite E, size_empty. split; [done|].
    destruct (Z.ltb_spec 0 (Z.of_nat (size (usersOf positions)))); [|done].
    apply zero_share. lia. }
  split; [unfold stats; rewrite ledgerStats_entries; apply length_imap|].
  split; [exact Hentries|].
  pose proof (ledgerStats_keys market (groupPositions positions).1
                (Z.of_nat (size (usersOf positions)))) as Hkeys.
  cbv zeta in Hkeys. fold stats in Hkeys.
  destruct Hkeys as [(Hp & Hm & _)|(j & Hj & Hgt & _)]; [done|].
  exfalso. rewrite list_lookup_fmap in Hj.
  destruct (MarketStats_OutcomeStats stats !! j) as [s|] eqn:Hs; [|done].
  assert (Hpct : OutcomeStats_Percentage s = MarketStats_PopularPct stats)
    by (by injection Hj).
  apply list_elem_of_lookup_2, Hentries in Hs as [_ Hzero].
  rewrite <- Hpct, Hzero in Hgt. done.
Qed.

(** X14. In price mode, when the price of every outcome scans to a number
    between 0 and 1, every percentage lies between 0 and 100, and so does
    the popular percentage. *)
Theorem price_percentages_bounded (market : Market) :
  (forall (i : nat) name,
     Market_Outcomes market !! i = Some name ->
     let price := priceOf (default "0" (Market_OutcomeTokens market !! i)) in
     (0 <=? price)%float = true /\ (price <=? 1)%float = true) ->
  let stats := computeStatsFromPrices market in
  (forall s, s ∈ MarketStats_OutcomeStats stats ->
     (0 <=? OutcomeStats_Percentage s)%float = true
     /\ (OutcomeStats_Percentage s <=? 100)%float = true)
  /\ (0 <=? MarketStats_PopularPct stats)%float = true
  /\ (MarketStats_PopularPct stats <=? 100)%float = true.
Proof.
  intros Hprices stats. split.
  - intros s Hs. unfold stats in Hs. rewrite computeStatsFromPrices_entries in Hs.
    apply elem_of_lookup_imap in Hs as (i & name & -> & Hi).
    cbn [priceEntry OutcomeStats_Percentage].
    destruct (Hprices i name Hi) as [Hlo Hhi]. by apply mul_100_bounds.
  - destruct (computeStatsFromPrices_keys market) as [Hpct Hkeys].
    fold stats in Hpct, Hkeys. rewrite Hpct.
    set (max := (scanMax _ _ _).1) in *.
    destruct Hkeys as [(_ & -> & _)|(j & Hj & _)]; [done|].
    unfold stats in Hj. rewrite computeStatsFromPrices_entries, list_lookup_fmap in Hj.
    rewrite list_lookup_imap in Hj.
    destruct (Market_Outcomes market !! j) as [name|] eqn:Hname; [|done].
    simpl in Hj. assert (Hmax : priceOf (default "0" (Market_OutcomeTokens market !! j)) = max)
      by (by injection Hj).
    destruct (Hprices j name Hname) as [Hlo Hhi]. rewrite Hmax in Hlo, Hhi.
    by apply mul_100_bounds.
Qed.

(** X15. The popular outcome and the popular percentage of the stats are
    those of one entry: either the popular outcome is empty and the popular
    percentage is 0, or some entry carries the popular outcome as its name
    and the popular percentage, which is above 0, as its percentage, and
    that name is the outcome of the market at the index of the entry. *)
Theorem popular_is_an_entry (up : Upstream) (market : Market) :
  exists stats,
    ComputeMarketStats up market = Some (stats, None)
    /\ ((MarketStats_PopularOutcome stats = ""
         /\ MarketStats_PopularPct stats = 0%float)
        \/ exists (j : nat) s,
             MarketStats_OutcomeStats stats !! j = Some s
             /\ Market_Outcomes market !! j = Some (MarketStats_PopularOutcome stats)
             /\ OutcomeStats_Outcome s = MarketStats_PopularOutcome stats
             /\ OutcomeStats_OutcomeIndex s = Z.of_nat j
             /\ OutcomeStats_Percentage s = MarketStats_PopularPct stats
             /\ (0 <? MarketStats_PopularPct stats)%float = true).
Proof.
  destruct (positionsLoop_fuel up (Market_ConditionID market)) as [run Hrun].
  specialize (Hrun 11%nat (le_n _)).
  rewrite (ComputeMarketStats_fetched up market run Hrun), statsOf_cases.
  eexists. split; [reflexivity|].
  assert (Hprice :
    let stats := computeStatsFromPrices market in
    (MarketStats_PopularOutcome stats = "" /\ MarketStats_PopularPct stats = 0%float)
    \/ exists (j : nat) s,
         MarketStats_OutcomeStats stats !! j = Some s
         /\ Market_Outcomes market !! j = Some (MarketStats_PopularOutcome stats)
         /\ OutcomeStats_Outcome s = MarketStats_PopularOutcome stats
         /\ OutcomeStats_OutcomeIndex s = Z.of_nat j
         /\ OutcomeStats_Percentage s = MarketStats_PopularPct stats
         /\ (0 <? MarketStats_PopularPct stats)%float = true).
  { intros stats. destruct (computeStatsFromPrices_keys market) as [Hpct Hkeys].
    fold stats in Hpct, Hkeys. set (max := (scanMax _ _ _).1) in *.
    destruct Hkeys as [(Hp & Hm & _)|(j & Hj & Hgt & _)].
    - left. split; [done|]. by rewrite Hpct, Hm.
    - right. unfold stats in Hj.
      rewrite computeStatsFromPrices_entries, list_lookup_fmap, list_lookup_imap in Hj.
      destruct (Market_Outcomes market !! j) as [name|] eqn:Hname; [|done].
      simpl in Hj. injection Hj as Hn Hmax.
      assert (Hname' : name = MarketStats_PopularOutcome stats) by exact Hn. clear Hn.
      exists j, (priceEntry (Market_OutcomeTokens market) j name).
      split; [unfold stats; by rewrite computeStatsFromPrices_entries,
                list_lookup_imap, Hname|].
      split; [by rewrite <- Hname'|]. split; [done|]. split; [done|].
      split; [by rewrite Hpct, <- Hmax|]. rewrite Hpct. by apply mul_100_pos. }
  assert (Hledger : forall outcomeUsers totalUsers,
    let stats := ledgerStats market outcomeUsers totalUsers in
    (MarketStats_PopularOutcome stats = "" /\ MarketStats_PopularPct stats = 0%float)
    \/ exists (j : nat) s,
         MarketStats_OutcomeStats stats !! j = Some s
         /\ Market_Outcomes market !! j = Some (MarketStats_PopularOutcome stats)
         /\ OutcomeStats_Outcome s = MarketStats_PopularOutcome stats
         /\ OutcomeStats_OutcomeIndex s = Z.of_nat j
         /\ OutcomeStats_Percentage s = MarketStats_PopularPct stats
         /\ (0 <? MarketStats_PopularPct stats)%float = true).
  { intros outcomeUsers totalUsers stats.
    pose proof (ledgerStats_keys market outcomeUsers totalUsers) as Hkeys.
    cbv zeta in Hkeys. fold stats in Hkeys.
    destruct Hkeys as [(Hp & Hm & _)|(j & Hj & Hgt & _)]; [by left|].
    right. unfold stats in Hj.
    rewrite ledgerStats_entries, list_lookup_fmap, list_lookup_imap in Hj.
    destruct (Market_Outcomes market !! j) as [name|] eqn:Hname; [|done].
    simpl in Hj. injection Hj as Hn Hmax.
    assert (Hname' : name = MarketStats_PopularOutcome stats) by exact Hn. clear Hn.
    assert (Hmax' : OutcomeStats_Percentage
                      (ledgerEntry outcomeUsers totalUsers (Market_OutcomeTokens market)
                         j name) = MarketStats_PopularPct stats) by exact Hmax.
    exists j, (ledgerEntry outcomeUsers totalUsers (Market_OutcomeTokens market) j name).
    split; [unfold stats; by rewrite ledgerStats_entries, list_lookup_imap, Hname|].
    split; [by rewrite <- Hname'|]. split; [done|]. split; [done|].
    split; [exact Hmax'|exact Hgt]. }
  destruct (Run_result run) as [e|positions]; [apply Hprice|].
  destruct (decide (usersOf positions = ∅)); [apply Hprice|apply Hledger].
Qed.

End StatsDependence.

Lemma stats_depend_on_holdings_witness :
  let a0 := position "a" "0" in
  let b1 := position "b" "1" in
  let a0' :=
    {| PositionData_ID := "other"; PositionData_User_ID := "a";
       PositionData_Outcome := "0"; PositionData_Market_ID := "0xd";
       PositionData_QuantityBought := "7"; PositionData_QuantitySold := "7" |} in
  @ComputeMarketStats _ scripted decimalScan [Positions [a0; b1]]
    (market ["Yes"; "No"] ["0.6"; "0.4"])
  = @ComputeMarketStats _ scripted decimalScan [Positions [b1; a0'; a0; b1]]
      (market ["Yes"; "No"] ["0.6"; "0.4"]).
Proof.
  intros a0 b1 a0'.
  eapply (@stats_depend_on_holdings (list PageReply) scripted decimalScan);
    [reflexivity|reflexivity|reflexivity|reflexivity|].
  intros outcome user.
  split; intros (pos & Hin & <- & <-);
    repeat (apply elem_of_cons in Hin as [->|Hin]);
    try (by apply elem_of_nil in Hin);
    first [ exists a0; split; [set_solver|split; reflexivity]
          | exists b1; split; [set_solver|split; reflexivity] ].
Defined.

Lemma unmatched_labels_count_nowhere_witness :
  exists stats,
    @ComputeMarketStats _ scripted decimalScan
      [Positions [position "a" "Yes"; position "b" "No"]]
      (market ["Yes"; "No"] ["0.6"; "0.4"]) = Some (stats, None)
    /\ MarketStats_TotalUsers stats = 2
    /\ OutcomeStats_UserCount <$> MarketStats_OutcomeStats stats = [0; 0]
    /\ MarketStats_PopularOutcome stats = "".
Proof.
  edestruct (@unmatched_labels_count_nowhere (list PageReply) scripted decimalScan
               [Positions [position "a" "Yes"; position "b" "No"]]
               (market ["Yes"; "No"] ["0.6"; "0.4"]))
    as (stats & Hstats & _ & _ & _ & _ & Hpop & _);
    [reflexivity|reflexivity| | | |].
  - intros E. apply (f_equal size) in E. vm_compute in E. discriminate.
  - vm_compute. reflexivity.
  - intros i pos Hi Hin.
    repeat (apply elem_of_cons in Hin as [->|Hin]); try (by apply elem_of_nil in Hin);
      (destruct i as [|[|i]]; [vm_compute; discriminate|vm_compute; discriminate|]);
      simpl in Hi; lia.
  - exists stats. split; [exact Hstats|].
    vm_compute in Hstats. injection Hstats as <-. repeat split; reflexivity.
Defined.

Lemma price_percentages_bounded_witness :
  let stats := @computeStatsFromPrices decimalScan (market ["Yes"; "No"] ["0.7"; "0.3"]) in
  (forall s, s ∈ MarketStats_OutcomeStats stats ->
     (0 <=? OutcomeStats_Percentage s)%float = true
     /\ (OutcomeStats_Percentage s <=? 100)%float = true)
  /\ (0 <=? MarketStats_PopularPct stats)%float = true
  /\ (MarketStats_PopularPct stats <=? 100)%float = true.
Proof.
  apply (@price_percentages_bounded decimalScan (market ["Yes"; "No"] ["0.7"; "0.3"])).
  intros i name Hi. destruct i as [|[|i]]; [| |discriminate Hi];
    vm_compute; split; reflexivity.
Defined.

(** ** The transport of a query *)

Section QueryFacts.

Context `{SubgraphClient.Transport Upstream, SubgraphClient.GraphQLJson, Fmt}.

(** X16. A query whose request does not encode fails without a POST and
    leaves the endpoint as it was. Otherwise one POST is made and the endpoint
    moves on. The query returns data exactly when the exchange gave a body
    that decodes to a response with an empty errors array, and the data are
    those of the response; the HTTP status plays no part. A response with a
    non-empty errors array fails the query with its first message, whether
    or not it carries data. *)
Theorem Query_result (up : Upstream) (variables : Request) :
  (SubgraphClient.Marshal_GraphQLRequest variables = None ->
   SubgraphClient.Query up variables = (up, inl SubgraphClient.ErrMarshalQuery))
  /\ (forall jsonBody up' exchange,
        SubgraphClient.Marshal_GraphQLRequest variables = Some jsonBody ->
        SubgraphClient.Post up jsonBody = (up', exchange) ->
        (SubgraphClient.Query up variables).1 = up'
        /\ (forall data,
              (SubgraphClient.Query up variables).2 = inr data <->
              exists status body gqlResp,
                exchange = SubgraphClient.PostReplied status (Some body)
                /\ SubgraphClient.Unmarshal_GraphQLResponse body = Some gqlResp
                /\ SubgraphClient.GraphQLResponse_Errors gqlResp = []
                /\ SubgraphClient.GraphQLResponse_Data gqlResp = data)
        /\ (forall status body gqlResp message rest,
              exchange = SubgraphClient.PostReplied status (Some body) ->
              SubgraphClient.Unmarshal_GraphQLResponse body = Some gqlResp ->
              SubgraphClient.GraphQLResponse_Errors gqlResp = message :: rest ->
              (SubgraphClient.Query up variables).2 =
              inl (SubgraphClient.ErrGraphQL message))).
Proof.
  unfold SubgraphClient.Query. split; [by intros ->|].
  intros jsonBody up' exchange -> ->. cbn [fst snd]. split; [done|]. split.
  - intros data. split.
    + destruct exchange as [|status [body|]]; [done| |done].
      destruct (SubgraphClient.Unmarshal_GraphQLResponse body) as [gqlResp|] eqn:Eb;
        [|done].
      destruct (SubgraphClient.GraphQLResponse_Errors gqlResp) eqn:Ee; [|done].
      intros [= <-]. by exists status, body, gqlResp.
    + intros (status & body & gqlResp & -> & -> & -> & <-). done.
  - intros status body gqlResp message rest -> -> ->. done.
Qed.

(** X17. When the response to the first request of a stats computation
    carries a non-empty errors array, the computation makes that one request
    and returns the price-mode stats, whatever the HTTP status and the data
    of the response. *)
Theorem graphql_error_gives_price_stats (up up' : Upstream) (market : Market)
    (jsonBody : string) (status : Z) (body : string)
    (gqlResp : SubgraphClient.GraphQLResponse) :
  SubgraphClient.Marshal_GraphQLRequest
    {| Request_marketId := Market_ConditionID market; Request_first := 1000;
       Request_skip := 0 |} = Some jsonBody ->
  SubgraphClient.Post up jsonBody = (up', SubgraphClient.PostReplied status (Some body)) ->
  SubgraphClient.Unmarshal_GraphQLResponse body = Some gqlResp ->
  SubgraphClient.GraphQLResponse_Errors gqlResp <> [] ->
  @ComputeMarketStats _ SubgraphClient.page _ up market
    = Some (computeStatsFromPrices market, None)
  /\ exists run,
       @GetMarketPositions _ SubgraphClient.page up (Market_ConditionID market) = Some run
       /\ Run_upstream run = up'
       /\ length (Run_log run) = 1%nat
       /\ Run_result run = inl (ErrQueryPositions 0).
Proof.
  intros Hm Hp Hb He.
  assert (Hpage : SubgraphClient.page up
            {| Request_marketId := Market_ConditionID market; Request_first := 1000;
               Request_skip := 0 |} = (up', QueryFailed)).
  { unfold SubgraphClient.page, SubgraphClient.Query. rewrite Hm, Hp, Hb.
    by destruct (SubgraphClient.GraphQLResponse_Errors gqlResp). }
  assert (Hrun : @GetMarketPositions _ SubgraphClient.page up (Market_ConditionID market)
                 = Some {| Run_upstream := up';
                           Run_log := [({| Request_marketId := Market_ConditionID market;
                                           Request_first := 1000; Request_skip := 0 |},
                                        QueryFailed)];
                           Run_result := inl (ErrQueryPositions 0) |}).
  { unfold GetMarketPositions. cbn [positionsLoop]. unfold Query at 1. by rewrite Hpage. }
  split.
  - unfold ComputeMarketStats. by rewrite Hrun.
  - eexists. split; [exact Hrun|]. done.
Qed.

End QueryFacts.

Lemma graphql_error_gives_price_stats_witness :
  let failing := SubgraphClient.PostReplied 200 (Some "errors") in
  @ComputeMarketStats _ (@SubgraphClient.page _ posted cannedGraphQL) decimalScan
    [failing] (market ["Yes"; "No"] ["0.7"; "0.3"])
  = Some (@computeStatsFromPrices decimalScan (market ["Yes"; "No"] ["0.7"; "0.3"]), None).
Proof.
  intros failing.
  eapply (@graphql_error_gives_price_stats _ posted cannedGraphQL decimalScan
            [failing] [] (market ["Yes"; "No"] ["0.7"; "0.3"]) "request" 200 "errors");
    [reflexivity|reflexivity|reflexivity|discriminate].
Defined.

(** ** A full share *)

Lemma new_location_0 nb_steps : new_location nb_steps 0 = loc_Exact.
Proof.
  unfold new_location, new_location_even, new_location_odd.
  by destruct (Z.even nb_steps).
Qed.

Lemma round_one :
  binary_round_aux prec emax false 9007199254740992 (-53) loc_Exact
  = S754_finite false 4503599627370496 (-52).
Proof. reflexivity. Qed.

(** A normal number divided by itself is 1. *)
Lemma SFdiv_self m e :
  Zdigits2 (Zpos m) = 53 ->
  SFdiv prec emax (S754_finite false m e) (S754_finite false m e)
  = S754_finite false 4503599627370496 (-52).
Proof.
  intros Hd. unfold SFdiv, SFdiv_core_binary.
  change (Zdigits2 (Zpos m)) with (Zpos (digits2_pos m)) in Hd.
  cbn [Zdigits2]. rewrite Hd.
  replace (53 + e - (53 + e)) with 0 by lia. rewrite Z.sub_diag.
  change (Z.min (fexp 0) 0) with (-53). change (0 - -53) with 53.
  rewrite Z.shiftl_mul_pow2 by lia.
  pose proof (Z_div_mod (Zpos m * 2 ^ 53) (Zpos m)) as Hdm.
  destruct (Z.div_eucl (Zpos m * 2 ^ 53) (Zpos m)) as [q r].
  destruct Hdm as [Eq Hr]; [lia|].
  change (2 ^ 53) with 9007199254740992 in *.
  assert (Hq : q = 9007199254740992) by nia.
  assert (Hr0 : r = 0) by nia.
  subst q r. cbn [xorb]. rewrite new_location_0. apply round_one.
Qed.

Lemma mul_one_100 :
  SFmul prec emax (S754_finite false 4503599627370496 (-52)) hundred = hundred.
Proof. reflexivity. Qed.

Lemma full_share t :
  0 < t < 2 ^ 63 -> (float64 t / float64 t * 100)%float = 100%float.
Proof.
  intros Ht. apply Prim2SF_inj. unfold float64.
  rewrite mul_spec, div_spec, Prim2SF_100. unfold SF64mul, SF64div.
  rewrite !float64_spec by lia.
  destruct (binary_normalize_int t Ht) as (mt & et & -> & Hdt & _).
  rewrite (SFdiv_self mt et Hdt). apply mul_one_100.
Qed.

(** A float that is at most 100 and not below 100 is 100. *)
Lemma leb_100_not_ltb (x : float) :
  (x <=? 100)%float = true -> (x <? 100)%float = false -> x = 100%float.
Proof.
  rewrite leb_spec, ltb_spec, Prim2SF_100. intros Hle Hlt.
  apply Prim2SF_inj. rewrite Prim2SF_100.
  unfold SFleb, SFltb, hundred in *.
  destruct (Prim2SF x) as [s|s| |s m e]; [by destruct s|by destruct s|done|].
  destruct s; [done|]. cbn [SFcompare] in *.
  destruct (Z.compare_spec e (-46)) as [He|?|?];
    [|discriminate Hlt|discriminate Hle].
  change (Pos.compare_cont Eq) with Pos.compare in *.
  destruct (Pos.compare_spec m 7036874417766400) as [Hm|?|?];
    [|discriminate Hlt|discriminate Hle].
  by rewrite He, Hm.
Qed.

Section FullShare.

Context `{Subgraph Upstream, Fmt}.

(** X18. In ledger mode, an outcome on which every user of the market holds
    a position has the total of users as its user count and exactly 100 as
    its percentage, and then the popular percentage is 100. *)
Theorem full_share_is_100 (up : Upstream) (market : Market) (run : Run Upstream)
    (positions : list PositionData) (i : nat) (name : string) :
  GetMarketPositions up (Market_ConditionID market) = Some run ->
  Run_result run = inr positions ->
  usersOf positions <> ∅ ->
  Z.of_nat (size (usersOf positions)) < 2 ^ 63 ->
  Market_Outcomes market !! i = Some name ->
  (forall user, user ∈ usersOf positions -> user ∈ usersOn (Sprint (Z.of_nat i)) positions) ->
  exists stats s,
    ComputeMarketStats up market = Some (stats, None)
    /\ MarketStats_OutcomeStats stats !! i = Some s
    /\ OutcomeStats_Outcome s = name
    /\ OutcomeStats_UserCount s = MarketStats_TotalUsers stats
    /\ OutcomeStats_Percentage s = 100%float
    /\ MarketStats_PopularPct stats = 100%float.
Proof.
  intros Hrun Hres Hne Hsmall Hname Hall.
  rewrite (ComputeMarketStats_fetched up market run Hrun), Hres.
  rewrite statsOf_cases, decide_False by done.
  set (total := Z.of_nat (size (usersOf positions))) in *.
  set (stats := ledgerStats _ _ _).
  pose proof (size_usersOf_pos positions Hne) as Hpos. fold total in Hpos.
  assert (Hon : usersOn (Sprint (Z.of_nat i)) positions = usersOf positions).
  { apply set_eq. intros user. split; [apply usersOn_subseteq|apply Hall]. }
  assert (Hentries : forall (j : nat) s, MarketStats_OutcomeStats stats !! j = Some s ->
            (OutcomeStats_Percentage s <=? 100)%float = true).
  { intros j s Hs. unfold stats in Hs.
    rewrite ledgerStats_entries, list_lookup_imap in Hs.
    destruct (Market_Outcomes market !! j) as [n|]; [|done]. injection Hs as <-.
    unfold ledgerEntry. cbn [OutcomeStats_Percentage]. rewrite groupPositions_size.
    pose proof (subseteq_size _ _ (usersOn_subseteq (Sprint (Z.of_nat j)) positions)) as Hle.
    fold total. destruct (Z.ltb_spec 0 total); [|lia].
    apply percentage_bounds; unfold total in *; lia. }
  set (s := ledgerEntry (groupPositions positions).1 total
              (Market_OutcomeTokens market) i name).
  assert (Hs : MarketStats_OutcomeStats stats !! i = Some s).
  { unfold stats. by rewrite ledgerStats_entries, list_lookup_imap, Hname. }
  assert (Hcount : OutcomeStats_UserCount s = total).
  { unfold s, ledgerEntry. cbn [OutcomeStats_UserCount].
    by rewrite groupPositions_size, Hon. }
  assert (Hpct : OutcomeStats_Percentage s = 100%float).
  { unfold s, ledgerEntry. cbn [OutcomeStats_Percentage].
    rewrite groupPositions_size, Hon. fold total.
    destruct (Z.ltb_spec 0 total); [|lia]. apply full_share. unfold total in *. lia. }
  exists stats, s. split; [reflexivity|]. split; [exact Hs|]. split; [reflexivity|].
  split; [exact Hcount|]. split; [exact Hpct|].
  pose proof (ledgerStats_keys market (groupPositions positions).1 total) as Hkeys.
  cbv zeta in Hkeys. fold stats in Hkeys.
  assert (Hkey : ((fun s => (OutcomeStats_Outcome s, OutcomeStats_Percentage s))
                    <$> MarketStats_OutcomeStats stats) !! i = Some (name, 100%float)).
  { rewrite list_lookup_fmap, Hs, <- Hpct. reflexivity. }
  destruct Hkeys as [(_ & _ & Hnone)|(j & Hj & _ & Hmax)].
  - exfalso. apply list_elem_of_lookup_2 in Hkey. by apply Hnone in Hkey.
  - destruct (Hmax i name 100%float Hkey) as [Hlt _].
    rewrite list_lookup_fmap in Hj.
    destruct (MarketStats_OutcomeStats stats !! j) as [sj|] eqn:Hsj; [|done].
    assert (Hpop : OutcomeStats_Percentage sj = MarketStats_PopularPct stats)
      by (by injection Hj).
    apply leb_100_not_ltb; [|exact Hlt]. rewrite <- Hpop. by eapply Hentries.
Qed.

End FullShare.

Lemma full_share_is_100_witness :
  exists stats s,
    @ComputeMarketStats _ scripted decimalScan
      [Positions [position "a" "1"; position "b" "1"; position "c" "1"; position "a" "0"]]
      (market ["Yes"; "No"] ["0.6"; "0.4"]) = Some (stats, None)
    /\ MarketStats_OutcomeStats stats !! 1%nat = Some s
    /\ OutcomeStats_Outcome s = "No"
    /\ OutcomeStats_UserCount s = MarketStats_TotalUsers stats
    /\ OutcomeStats_Percentage s = 100%float
    /\ MarketStats_PopularPct stats = 100%float.
Proof.
  eapply (@full_share_is_100 (list PageReply) scripted decimalScan);
    [reflexivity|reflexivity| | |reflexivity|].
  - intros E. apply (f_equal size) in E. vm_compute in E. discriminate.
  - vm_compute. reflexivity.
  - intros user Hin. apply elem_of_usersOf in Hin as (pos & Hin & <-).
    apply elem_of_usersOn.
    repeat (apply elem_of_cons in Hin as [->|Hin]); try (by apply elem_of_nil in Hin);
      first [ exists (position "a" "1"); split; [set_solver|split; reflexivity]
            | exists (position "b" "1"); split; [set_solver|split; reflexivity]
            | exists (position "c" "1"); split; [set_solver|split; reflexivity] ].
Defined.

(** ** Prices that were not decoded *)

Section UndecodedPrices.

Context `{Json, TimeParser, Fmt}.

(** X19. A record whose prices string is empty or does not decode is
    normalized to a market without prices; its price-mode stats give every
    outcome the price ["0"], and, the scanner reading ["0"] as 0, the
    percentage 0, with an empty popular outcome and the popular percentage
    0. *)
Theorem undecoded_prices_give_zero_stats (gm : GammaMarket) :
  GammaMarket_OutcomePrices gm = ""
  \/ Unmarshal_strings (GammaMarket_OutcomePrices gm) = None ->
  Sscanf_f "0" = Some 0%float ->
  let stats := computeStatsFromPrices (convertGammaMarket gm) in
  Market_OutcomeTokens (convertGammaMarket gm) = []
  /\ length (MarketStats_OutcomeStats stats)
     = length (Market_Outcomes (convertGammaMarket gm))
  /\ (forall s, s ∈ MarketStats_OutcomeStats stats ->
        OutcomeStats_Price s = "0" /\ OutcomeStats_Percentage s = 0%float)
  /\ MarketStats_PopularOutcome stats = ""
  /\ MarketStats_PopularPct stats = 0%float.
Proof.
  intros Hprices Hscan stats.
  assert (Htokens : Market_OutcomeTokens (convertGammaMarket gm) = []).
  { simpl. destruct (decide _) as [|Hne]; [done|].
    destruct Hprices as [? | ->]; done. }
  assert (Hzero : priceOf "0" = 0%float) by (unfold priceOf; by rewrite Hscan).
  assert (Hentries : forall s, s ∈ MarketStats_OutcomeStats stats ->
            OutcomeStats_Price s = "0" /\ OutcomeStats_Percentage s = 0%float).
  { intros s Hs. unfold stats in Hs. rewrite computeStatsFromPrices_entries in Hs.
    apply elem_of_lookup_imap in Hs as (i & name & -> & Hi).
    unfold priceEntry. rewrite Htokens. cbn [OutcomeStats_Price OutcomeStats_Percentage].
    rewrite lookup_nil. cbn [default]. by rewrite Hzero. }
  split; [exact Htokens|].
  split; [unfold stats; rewrite computeStatsFromPrices_entries; apply length_imap|].
  split; [exact Hentries|].
  destruct (computeStatsFromPrices_keys (convertGammaMarket gm)) as [Hpct Hkeys].
  fold stats in Hpct, Hkeys. set (max := (scanMax _ _ _).1) in *.
  destruct Hkeys as [(Hp & Hm & _)|(j & Hj & Hgt & _)].
  - split; [exact Hp|]. by rewrite Hpct, Hm.
  - exfalso. rewrite list_lookup_fmap in Hj.
    destruct (MarketStats_OutcomeStats stats !! j) as [s|] eqn:Hs; [|done].
    assert (Hmax : priceOf (OutcomeStats_Price s) = max) by (by injection Hj).
    apply list_elem_of_lookup_2, Hentries in Hs as [Hprice _].
    rewrite Hprice, Hzero in Hmax. rewrite <- Hmax in Hgt. done.
Qed.

End UndecodedPrices.

Lemma undecoded_prices_give_zero_stats_witness :
  let m :=
    @convertGammaMarket outcomesJson cannedTime (gammaMarket "9" "long ago" true false) in
  let stats := @computeStatsFromPrices decimalScan m in
  Market_Outcomes m = ["Yes"; "No"]
  /\ Market_OutcomeTokens m = []
  /\ length (MarketStats_OutcomeStats stats) = 2%nat
  /\ (forall s, s ∈ MarketStats_OutcomeStats stats ->
        OutcomeStats_Price s = "0" /\ OutcomeStats_Percentage s = 0%float)
  /\ MarketStats_PopularOutcome stats = ""
  /\ MarketStats_PopularPct stats = 0%float.
Proof.
  destruct (@undecoded_prices_give_zero_stats outcomesJson cannedTime decimalScan
              (gammaMarket "9" "long ago" true false))
    as (Htokens & Hlen & Hall & Hpop & Hpct); [by right|reflexivity|].
  split; [reflexivity|]. split; [exact Htokens|].
  split; [rewrite Hlen; reflexivity|].
  split; [exact Hall|]. split; [exact Hpop|exact Hpct].
Defined.
